(** * bakesequencerlevels: syncing visible streaming sublevels into a
      Level Visibility track

    A shallow embedding of [bakesequencerlevels.py].  The script talks to
    the Unreal editor through the [unreal] module; everything it reads or
    writes there (the open sequence, its Level Visibility tracks, the
    editor world, the output log, the Sequencer refresh) is gathered in a
    [Host] record, and the script is a computation in a state-and-exception
    monad over it.

    Host calls return normally, except where the script provides for a
    failure: reading the flags of a streaming level or its package name may
    raise, [add_track] and [add_section] may return [None].  Python [int]s
    are [Z], [str]s are [string]s, the [set] of step 6 is a [ListSet]. *)

From Stdlib Require Import String Ascii List ListSet ZArith Lia Bool Arith.
Import ListNotations.
Open Scope string_scope.
Open Scope list_scope.

(** ** Python string operations used by the script *)

Module PyStr.

(** [s.split(sep)] for a one-character separator: never empty. *)
Fixpoint split (sep : ascii) (s : string) : list string :=
  match s with
  | EmptyString => [EmptyString]
  | String c rest =>
      if Ascii.eqb c sep then EmptyString :: split sep rest
      else match split sep rest with
           | hd :: tl => String c hd :: tl
           | [] => [String c EmptyString]
           end
  end.

(** [s.rsplit(sep, 1)]: cut once, at the last separator. *)
Fixpoint rsplit1 (sep : ascii) (s : string) : list string :=
  match s with
  | EmptyString => [EmptyString]
  | String c rest =>
      match rsplit1 sep rest with
      | [tl] => if Ascii.eqb c sep then [EmptyString; tl] else [String c tl]
      | hd :: more => String c hd :: more
      | [] => [String c EmptyString]
      end
  end.

(** [parts[-1]] on the lists above, which are never empty. *)
Definition item_m1 (parts : list string) : string := last parts EmptyString.

(** Truthiness of a [str]. *)
Definition truthy (s : string) : bool :=
  match s with EmptyString => false | _ => true end.

(** [c in s]. *)
Fixpoint contains (c : ascii) (s : string) : bool :=
  match s with
  | EmptyString => false
  | String d rest => Ascii.eqb d c || contains c rest
  end.

End PyStr.

(** [_short_name_from_package]: "/Game/Maps/SubLevels/MySub_A" -> "MySub_A". *)
Definition _short_name_from_package (package_path : string) : string :=
  if negb (PyStr.truthy package_path) then ""
  else
    let tail := PyStr.item_m1 (PyStr.rsplit1 "/" package_path) in
    PyStr.item_m1 (PyStr.split "." tail).

(** NameResolver's primary rule in the words of the specification: the
    last segment of the identity split on '/', then what follows the last
    '.' of that segment. *)
Definition last_segment (sep : ascii) (s : string) : string :=
  PyStr.item_m1 (PyStr.split sep s).

Definition resolve_primary (identity : string) : string :=
  last_segment "." (last_segment "/" identity).

(** ** The host: what the script sees of the editor *)

(** Outcome of a host call that may raise a Python exception. *)
Inductive Exc (A : Type) : Type :=
| Ok (a : A)
| Raised.
Arguments Ok {A} a.
Arguments Raised {A}.

Inductive LevelVisibility : Type := VISIBLE | HIDDEN.

(** A section of a Level Visibility track.  Level names are kept as the
    strings the script stores and reads back ([str(name)]). *)
Record MovieSceneSection : Type := mkSection {
  row_index : Z;
  range : Z * Z;
  level_names : list string;
  visibility : LevelVisibility }.

Record Track : Type := mkTrack {
  track_name : string;
  sections : list MovieSceneSection }.

(** A streaming wrapper.  [get_world_asset_package_name] is [None] when the
    streaming class has no such accessor ([getattr] gives its default);
    otherwise it is what calling the accessor does. *)
Record LevelStreaming : Type := mkStreaming {
  is_level_visible : Exc bool;
  is_level_loaded : Exc bool;
  get_world_asset_package_name : option (Exc string) }.

(** A level of the world: its package name, and what
    [GameplayStatics.get_streaming_level] finds for that name. *)
Record Level : Type := mkLevel {
  package_name : string;
  streaming_level : option LevelStreaming }.

(** The open sequence.  [visibility_tracks] are its tracks of type
    [MovieSceneLevelVisibilityTrack]; [add_track_yields] is the name of the
    track [add_track] would create, [None] when the call fails. *)
Record LevelSequence : Type := mkSequence {
  path_name : string;
  visibility_tracks : list Track;
  playback_range : Z * Z;
  add_track_yields : option string }.

Inductive Severity : Type := Display | Warning | Error.

(** The script's log lines, one constructor per format string. *)
Inductive Message : Type :=
| NoActiveSequence
| Processing (path : string)
| TrackUnavailable
| UsingTrack (name : string)
| NoEditorWorld
| FoundLevels (n : nat)
| PersistentLevel (package_path : string)
| NothingToAdd
| NamesToSync (names : list string)
| PlaybackFrames (start_frame end_frame : Z)
| ExistingEntries (names : list string)
| SkipPresent (name : string)
| AddFailed (name : string)
| AddedSection (name : string)
| SyncComplete (added : Z).

(** [add_section_outcomes] lists what the coming [add_section] calls do
    ([false]: the call returns [None]); once it is used up, calls succeed. *)
Record Host : Type := mkHost {
  current_level_sequence : option LevelSequence;
  editor_world : option (list Level);
  add_section_outcomes : list bool;
  output_log : list (Severity * Message);
  refreshes : nat }.

(** What [track.add_section()] hands back before the setters run. *)
Definition fresh_section : MovieSceneSection := mkSection 0%Z (0%Z, 0%Z) [] VISIBLE.

(** ** State and exceptions *)

Definition M (A : Type) : Type := Host -> Host * Exc A.

Definition ret {A : Type} (a : A) : M A := fun h => (h, Ok a).

Definition bind {A B : Type} (m : M A) (k : A -> M B) : M B :=
  fun h =>
    match m h with
    | (h', Ok a) => k a h'
    | (h', Raised) => (h', Raised)
    end.

(** A host call that may raise. *)
Definition call {A : Type} (r : Exc A) : M A := fun h => (h, r).

(** [try: body / except Exception: handler]. *)
Definition try_except {A : Type} (body handler : M A) : M A :=
  fun h =>
    match body h with
    | (h', Raised) => handler h'
    | done => done
    end.

Declare Scope py_scope.
Delimit Scope py_scope with py.
Notation "x <- m ;; k" := (bind m (fun x => k))
  (at level 100, m at next level, right associativity) : py_scope.
Notation "m ;; k" := (bind m (fun _ => k))
  (at level 100, right associativity) : py_scope.
Open Scope py_scope.

(** ** Host operations *)

Definition unreal_log (sev : Severity) (msg : Message) : M unit :=
  fun h =>
    (mkHost (current_level_sequence h) (editor_world h)
            (add_section_outcomes h) (output_log h ++ [(sev, msg)])
            (refreshes h),
     Ok tt).

Definition get_current_level_sequence : M (option LevelSequence) :=
  fun h => (h, Ok (current_level_sequence h)).

Definition get_editor_world : M (option (list Level)) :=
  fun h => (h, Ok (editor_world h)).

(** [EditorLevelUtils.get_levels(world)]. *)
Definition get_levels (world : list Level) : list Level := world.

Definition refresh_current_level_sequence : M unit :=
  fun h =>
    (mkHost (current_level_sequence h) (editor_world h)
            (add_section_outcomes h) (output_log h) (S (refreshes h)),
     Ok tt).

(** Tracks and sections are objects of the host; the script holds them
    by position: a track by its index among the sequence's Level Visibility
    tracks, a section by its index in its track. *)
Definition with_tracks (f : list Track -> list Track) (h : Host) : Host :=
  match current_level_sequence h with
  | Some sq =>
      mkHost (Some (mkSequence (path_name sq) (f (visibility_tracks sq))
                               (playback_range sq) (add_track_yields sq)))
             (editor_world h) (add_section_outcomes h) (output_log h)
             (refreshes h)
  | None => h
  end.

Fixpoint update_nth {A : Type} (n : nat) (f : A -> A) (l : list A) : list A :=
  match l, n with
  | [], _ => []
  | x :: tl, O => f x :: tl
  | x :: tl, S m => x :: update_nth m f tl
  end.

Definition tracks_of (h : Host) : list Track :=
  match current_level_sequence h with
  | Some sq => visibility_tracks sq
  | None => []
  end.

(** [sequence.find_tracks_by_type(MovieSceneLevelVisibilityTrack)]. *)
Definition find_tracks_by_type : M (list nat) :=
  fun h => (h, Ok (seq 0 (length (tracks_of h)))).

(** [sequence.add_track(MovieSceneLevelVisibilityTrack)]: a new, empty
    track at the end, or [None]. *)
Definition add_track : M (option nat) :=
  fun h =>
    match current_level_sequence h with
    | Some sq =>
        match add_track_yields sq with
        | Some name =>
            (with_tracks (fun ts => ts ++ [mkTrack name []]) h,
             Ok (Some (length (visibility_tracks sq))))
        | None => (h, Ok None)
        end
    | None => (h, Ok None)
    end.

Definition get_name (track : nat) : M string :=
  fun h => (h, Ok (track_name (nth track (tracks_of h) (mkTrack "" [])))).

Definition get_sections (track : nat) : M (list MovieSceneSection) :=
  fun h => (h, Ok (sections (nth track (tracks_of h) (mkTrack "" [])))).

Definition with_sections (track : nat)
    (f : list MovieSceneSection -> list MovieSceneSection) : Host -> Host :=
  with_tracks
    (update_nth track (fun t => mkTrack (track_name t) (f (sections t)))).

(** [track.add_section()]: the next outcome decides; on success a fresh
    section is appended and its position returned. *)
Definition add_section (track : nat) : M (option nat) :=
  fun h =>
    let i := length (sections (nth track (tracks_of h) (mkTrack "" []))) in
    let appended := with_sections track (fun ss => ss ++ [fresh_section]) in
    match add_section_outcomes h with
    | [] => (appended h, Ok (Some i))
    | ok :: later =>
        let h' := mkHost (current_level_sequence h) (editor_world h) later
                         (output_log h) (refreshes h) in
        if ok then (appended h', Ok (Some i)) else (h', Ok None)
    end.

Definition set_section (track section : nat)
    (f : MovieSceneSection -> MovieSceneSection) : M unit :=
  fun h => (with_sections track (update_nth section f) h, Ok tt).

Definition set_row_index (track section : nat) (row : Z) : M unit :=
  set_section track section
    (fun s => mkSection row (range s) (level_names s) (visibility s)).

Definition set_range (track section : nat) (start_frame end_frame : Z) : M unit :=
  set_section track section
    (fun s => mkSection (row_index s) (start_frame, end_frame)
                        (level_names s) (visibility s)).

Definition set_level_names (track section : nat) (names : list string) : M unit :=
  set_section track section
    (fun s => mkSection (row_index s) (range s) names (visibility s)).

Definition set_visibility (track section : nat) (v : LevelVisibility) : M unit :=
  set_section track section
    (fun s => mkSection (row_index s) (range s) (level_names s) v).

Definition get_playback_range : M (Z * Z) :=
  fun h =>
    (h, Ok match current_level_sequence h with
           | Some sq => playback_range sq
           | None => (0%Z, 0%Z)
           end).

(** ** Python [set] of strings and [sorted] *)

Definition py_in (x : string) (s : set string) : bool := set_mem string_dec x s.

Fixpoint insert_sorted (x : string) (l : list string) : list string :=
  match l with
  | [] => [x]
  | y :: tl => if String.leb x y then x :: l else y :: insert_sorted x tl
  end.

Definition sorted (s : set string) : list string :=
  fold_right insert_sorted [] s.

(** ** The script *)

(** [unreal.Name(n)]: level names are kept as strings. *)
Definition unreal_Name (n : string) : string := n.

(** [add_level_visibility_section], the helper that adds one visibility
    section; [row] is 0 when the caller leaves it out.  When [add_section]
    returns [None] the first setter raises. *)
Definition add_level_visibility_section (track : nat) (level_names : list string)
    (visible : bool) (start_frame end_frame : Z) (row : Z) : M nat :=
  section <- add_section track ;;
  match section with
  | None => call Raised
  | Some section =>
      set_row_index track section row ;;
      set_visibility track section (if visible then VISIBLE else HIDDEN) ;;
      set_level_names track section (map unreal_Name level_names) ;;
      set_range track section start_frame end_frame ;;
      ret section
  end.

Section Script.

(** [unreal.Paths.get_base_filename], a function of the engine. *)
Variable get_base_filename : string -> string.

(** [_level_short_name]; [package_path or ""] is [package_path] on a [str]. *)
Definition _level_short_name (package_path : string) : string :=
  get_base_filename package_path.

(** The [try] block of step 4: the name to show for a streaming level,
    [pretty_name] unless the wrapper gives a package name of its own. *)
Definition pretty_name_of (streaming : LevelStreaming) (pretty_name : string)
  : M string :=
  try_except
    match get_world_asset_package_name streaming with
    | Some get_pkg =>
        pkg_name <- call get_pkg ;;
        if PyStr.truthy pkg_name
        then ret (_short_name_from_package pkg_name)
        else ret pretty_name
    | None => ret pretty_name
    end
    (ret pretty_name).

(** Step 4, the loop over [levels]. *)
Fixpoint gather_levels (levels : list Level)
    (visible_level_paths visible_level_names : list string)
  : M (list string * list string) :=
  match levels with
  | [] => ret (visible_level_paths, visible_level_names)
  | lvl :: rest =>
      let package_path := package_name lvl in
      match streaming_level lvl with
      | Some streaming =>
          is_visible <- call (is_level_visible streaming) ;;
          is_loaded <- call (is_level_loaded streaming) ;;
          pretty_name <-
            pretty_name_of streaming (_short_name_from_package package_path) ;;
          if is_visible && is_loaded
          then gather_levels rest
                 (visible_level_paths ++ [package_path])
                 (visible_level_names ++ [_level_short_name pretty_name])
          else gather_levels rest visible_level_paths visible_level_names
      | None =>
          unreal_log Display (PersistentLevel package_path) ;;
          gather_levels rest visible_level_paths visible_level_names
      end
  end.

(** Step 6: the names already on the track. *)
Definition existing_names (secs : list MovieSceneSection) : set string :=
  fold_left
    (fun existing section =>
       fold_left (fun existing name_or_path =>
                    set_add string_dec name_or_path existing)
                 (level_names section) existing)
    secs (empty_set string).

(** Step 7, the loop over [visible_level_names]. *)
Fixpoint add_sections (visibility_track : nat) (start_frame end_frame : Z)
    (existing : set string) (names : list string) (added : Z) : M Z :=
  match names with
  | [] => ret added
  | level_path :: rest =>
      if py_in level_path existing then
        unreal_log Display (SkipPresent level_path) ;;
        add_sections visibility_track start_frame end_frame existing rest added
      else
        new_section <- add_section visibility_track ;;
        match new_section with
        | None =>
            unreal_log Warning (AddFailed level_path) ;;
            add_sections visibility_track start_frame end_frame existing
                         rest added
        | Some new_section =>
            set_row_index visibility_track new_section added ;;
            set_range visibility_track new_section start_frame end_frame ;;
            set_level_names visibility_track new_section [level_path] ;;
            set_visibility visibility_track new_section VISIBLE ;;
            unreal_log Display (AddedSection level_path) ;;
            add_sections visibility_track start_frame end_frame existing
                         rest (added + 1)%Z
        end
  end.

Definition sync_visible_levels_to_sequencer : M unit :=
  sequence <- get_current_level_sequence ;;
  match sequence with
  | None => unreal_log Error NoActiveSequence
  | Some sequence =>
      unreal_log Display (Processing (path_name sequence)) ;;
      found <- find_tracks_by_type ;;
      visibility_track <-
        match found with
        | first :: _ => ret (Some first)
        | [] => add_track
        end ;;
      match visibility_track with
      | None => unreal_log Error TrackUnavailable
      | Some visibility_track =>
          name <- get_name visibility_track ;;
          unreal_log Display (UsingTrack name) ;;
          world <- get_editor_world ;;
          match world with
          | None => unreal_log Error NoEditorWorld
          | Some world =>
              let levels := get_levels world in
              unreal_log Display (FoundLevels (length levels)) ;;
              gathered <- gather_levels levels [] [] ;;
              let visible_level_names := snd gathered in
              match visible_level_names with
              | [] => unreal_log Warning NothingToAdd
              | _ :: _ =>
                  unreal_log Display (NamesToSync visible_level_names) ;;
                  pr <- get_playback_range ;;
                  let start_frame := fst pr in
                  let end_frame := snd pr in
                  unreal_log Display (PlaybackFrames start_frame end_frame) ;;
                  secs <- get_sections visibility_track ;;
                  let existing := existing_names secs in
                  unreal_log Display (ExistingEntries (sorted existing)) ;;
                  added <- add_sections visibility_track start_frame end_frame
                                        existing visible_level_names 0%Z ;;
                  unreal_log Warning (SyncComplete added) ;;
                  refresh_current_level_sequence
              end
          end
      end
  end.

End Script.

(** Modelled from the spec: [unreal.Paths.get_base_filename] belongs to the
    engine, not to this repository.  The spec has it strip directory and
    extension, and take a string that is no path as its own base name. *)
Definition base_filename (path : string) : string :=
  let file := PyStr.item_m1 (PyStr.rsplit1 "/" path) in
  match PyStr.rsplit1 "." file with
  | [stem; _] => stem
  | _ => file
  end.

(** ** The run, described without the monad

    The definitions below say in closed form what the two loops and the
    whole script do; [gather_levels_scan], [add_sections_steps] and
    [sync_outline_correct] prove them equal to the script. *)

(** Append lines to the output log. *)
Definition say (lines : list (Severity * Message)) (h : Host) : Host :=
  mkHost (current_level_sequence h) (editor_world h) (add_section_outcomes h)
         (output_log h ++ lines) (refreshes h).

Section Outline.

Variable get_base_filename : string -> string.

(** The name the script stores for a streaming level. *)
Definition shown_name (lvl : Level) (streaming : LevelStreaming) : string :=
  get_base_filename
    match get_world_asset_package_name streaming with
    | Some (Ok pkg_name) =>
        if PyStr.truthy pkg_name then _short_name_from_package pkg_name
        else _short_name_from_package (package_name lvl)
    | _ => _short_name_from_package (package_name lvl)
    end.

(** Streaming, visible and loaded. *)
Definition is_candidate (lvl : Level) : bool :=
  match streaming_level lvl with
  | Some streaming =>
      match is_level_visible streaming, is_level_loaded streaming with
      | Ok true, Ok true => true
      | _, _ => false
      end
  | None => false
  end.

Definition candidate_name (lvl : Level) : string :=
  match streaming_level lvl with
  | Some streaming => shown_name lvl streaming
  | None => ""
  end.

(** Reading the flags of this level raises. *)
Definition flags_raise (lvl : Level) : bool :=
  match streaming_level lvl with
  | Some streaming =>
      match is_level_visible streaming, is_level_loaded streaming with
      | Ok _, Ok _ => false
      | _, _ => true
      end
  | None => false
  end.

(** Step 4 as a whole: the (path, name) pairs gathered, or the exception. *)
Fixpoint scan (levels : list Level) : Exc (list (string * string)) :=
  match levels with
  | [] => Ok []
  | lvl :: rest =>
      if flags_raise lvl then Raised
      else match scan rest with
           | Ok found =>
               Ok (if is_candidate lvl
                   then (package_name lvl, candidate_name lvl) :: found
                   else found)
           | Raised => Raised
           end
  end.

(** The lines step 4 logs, up to the level whose flags raise. *)
Fixpoint scan_log (levels : list Level) : list (Severity * Message) :=
  match levels with
  | [] => []
  | lvl :: rest =>
      if flags_raise lvl then []
      else match streaming_level lvl with
           | None => (Display, PersistentLevel (package_name lvl)) :: scan_log rest
           | Some _ => scan_log rest
           end
  end.

End Outline.

(** What step 7 does with one name. *)
Inductive Step : Type :=
| Skip (name : string)
| Fail (name : string)
| Create (name : string) (row : Z).

Fixpoint steps (existing : set string) (names : list string)
    (outcomes : list bool) (added : Z) : list Step :=
  match names with
  | [] => []
  | level_path :: rest =>
      if py_in level_path existing
      then Skip level_path :: steps existing rest outcomes added
      else match outcomes with
           | false :: later => Fail level_path :: steps existing rest later added
           | true :: later =>
               Create level_path added :: steps existing rest later (added + 1)%Z
           | [] => Create level_path added :: steps existing rest [] (added + 1)%Z
           end
  end.

Definition built (frames : Z * Z) (st : list Step) : list MovieSceneSection :=
  flat_map (fun s => match s with
                     | Create name row => [mkSection row frames [name] VISIBLE]
                     | _ => []
                     end) st.

Definition step_line (s : Step) : Severity * Message :=
  match s with
  | Skip name => (Display, SkipPresent name)
  | Fail name => (Warning, AddFailed name)
  | Create name _ => (Display, AddedSection name)
  end.

Definition is_skip (s : Step) : bool := match s with Skip _ => true | _ => false end.
Definition is_fail (s : Step) : bool := match s with Fail _ => true | _ => false end.
Definition is_create (s : Step) : bool := match s with Create _ _ => true | _ => false end.

(** Calls to [add_section] made, and sections obtained. *)
Definition attempts (st : list Step) : nat := length (filter (fun s => negb (is_skip s)) st).
Definition creations (st : list Step) : nat := length (filter is_create st).

(** Steps 1 and 2: the track the run works on and the other tracks, once
    a track was found or created; [None] when there is none to be had. *)
Definition ensured_tracks (sq : LevelSequence) : option (Track * list Track) :=
  match visibility_tracks sq with
  | first :: others => Some (first, others)
  | [] =>
      match add_track_yields sq with
      | Some name => Some (mkTrack name [], [])
      | None => None
      end
  end.

Definition sync_outline (get_base_filename : string -> string) (h : Host)
  : Host * Exc unit :=
  match current_level_sequence h with
  | None => (say [(Error, NoActiveSequence)] h, Ok tt)
  | Some sq =>
      let line1 := (Display, Processing (path_name sq)) in
      match ensured_tracks sq with
      | None => (say [line1; (Error, TrackUnavailable)] h, Ok tt)
      | Some (track, others) =>
          let h1 := with_tracks (fun _ => track :: others) h in
          let line2 := (Display, UsingTrack (track_name track)) in
          match editor_world h with
          | None => (say [line1; line2; (Error, NoEditorWorld)] h1, Ok tt)
          | Some world =>
              let lines4 :=
                [line1; line2; (Display, FoundLevels (length world))]
                  ++ scan_log world in
              match scan get_base_filename world with
              | Raised => (say lines4 h1, Raised)
              | Ok [] => (say (lines4 ++ [(Warning, NothingToAdd)]) h1, Ok tt)
              | Ok found =>
                  let names := map snd found in
                  let frames := playback_range sq in
                  let existing := existing_names (sections track) in
                  let st := steps existing names (add_section_outcomes h) 0 in
                  (mkHost
                     (Some (mkSequence (path_name sq)
                              (mkTrack (track_name track)
                                       (sections track ++ built frames st)
                                 :: others)
                              frames (add_track_yields sq)))
                     (editor_world h)
                     (skipn (attempts st) (add_section_outcomes h))
                     (output_log h ++ lines4
                        ++ [(Display, NamesToSync names);
                            (Display, PlaybackFrames (fst frames) (snd frames));
                            (Display, ExistingEntries (sorted existing))]
                        ++ map step_line st
                        ++ [(Warning, SyncComplete (Z.of_nat (creations st)))])
                     (S (refreshes h)),
                   Ok tt)
              end
          end
      end
  end.

(** ** What a run leaves behind *)

(** Sections of the track a run works on: the first Level Visibility track. *)
Definition working_sections (h : Host) : list MovieSceneSection :=
  match tracks_of h with
  | first :: _ => sections first
  | [] => []
  end.

Definition after_sync (get_base_filename : string -> string) (h : Host) : Host :=
  fst (sync_visible_levels_to_sequencer get_base_filename h).

(** The sections a run has created: what the working track holds after the
    run beyond what it held before. *)
Definition created (get_base_filename : string -> string) (h : Host)
  : list MovieSceneSection :=
  skipn (length (working_sections h))
        (working_sections (after_sync get_base_filename h)).

(** Lines of one kind in a log. *)
Definition count_lines (p : Message -> bool) (lg : list (Severity * Message)) : nat :=
  length (filter (fun line => p (snd line)) lg).

(** The lines a run has logged. *)
Definition logged (get_base_filename : string -> string) (h : Host)
  : list (Severity * Message) :=
  skipn (length (output_log h)) (output_log (after_sync get_base_filename h)).

(** The names a run gathers in step 4; none when it stops before or while
    gathering. *)
Definition candidates (get_base_filename : string -> string) (h : Host)
  : list string :=
  match current_level_sequence h with
  | Some sq =>
      match ensured_tracks sq, editor_world h with
      | Some _, Some world =>
          match scan get_base_filename world with
          | Ok found => map snd found
          | Raised => []
          end
      | _, _ => []
      end
  | None => []
  end.

(** The names already on the working track when the run starts. *)
Definition existing_before (h : Host) : set string :=
  existing_names (working_sections h).

(** Candidates that are not on the track yet: those step 7 tries to add. *)
Definition to_add (get_base_filename : string -> string) (h : Host)
  : list string :=
  filter (fun name => negb (py_in name (existing_before h)))
         (candidates get_base_filename h).

(** What step 7 does in a run, name by name. *)
Definition run_steps (get_base_filename : string -> string) (h : Host)
  : list Step :=
  steps (existing_before h) (candidates get_base_filename h)
        (add_section_outcomes h) 0.

(** [add_section] calls that return [None] among the first [n] to come. *)
Definition failures_within (n : nat) (outcomes : list bool) : nat :=
  length (filter negb (firstn n outcomes)).

Definition frames_of (h : Host) : Z * Z :=
  match current_level_sequence h with
  | Some sq => playback_range sq
  | None => (0%Z, 0%Z)
  end.

Definition is_add_failed (m : Message) : bool :=
  match m with AddFailed _ => true | _ => false end.
Definition is_skip_present (m : Message) : bool :=
  match m with SkipPresent _ => true | _ => false end.
Definition is_added_section (m : Message) : bool :=
  match m with AddedSection _ => true | _ => false end.

(** Lines that step 7 writes for a name. *)
Definition is_step_message (m : Message) : bool :=
  is_add_failed m || is_skip_present m || is_added_section m.

Definition quiet_line (line : Severity * Message) : Prop :=
  is_step_message (snd line) = false.

(** A host whose sequence has the track [mkTrack tname secs] in the middle
    of its Level Visibility tracks. *)
Definition host_at (pn : string) (before : list Track) (tname : string)
    (secs : list MovieSceneSection) (after : list Track) (frames : Z * Z)
    (aty : option string) (world : option (list Level)) (outcomes : list bool)
    (lg : list (Severity * Message)) (r : nat) : Host :=
  mkHost (Some (mkSequence pn (before ++ mkTrack tname secs :: after) frames aty))
         world outcomes lg r.

(** ** Sample hosts *)

Definition streaming_level_in (visible loaded : bool) : option LevelStreaming :=
  Some (mkStreaming (Ok visible) (Ok loaded) None).

(** A (persistent), B (streaming, visible and loaded), C (streaming,
    visible, not loaded). *)
Definition sample_world : list Level :=
  [mkLevel "/Game/L/A" None;
   mkLevel "/Game/L/B" (streaming_level_in true true);
   mkLevel "/Game/L/C" (streaming_level_in true false)].

Definition sample_sequence (tracks : list Track) (add_track_yields : option string)
  : LevelSequence :=
  mkSequence "/Game/Seq" tracks (0, 100)%Z add_track_yields.

(** An open sequence with an empty Level Visibility track, frames 0..100. *)
Definition sample_host : Host :=
  mkHost (Some (sample_sequence [mkTrack "Level Visibility" []] None))
         (Some sample_world) [] [] 0.

(** The same, with a first [add_section] call that fails. *)
Definition flaky_host : Host :=
  mkHost (Some (sample_sequence [mkTrack "Level Visibility" []] None))
         (Some sample_world) [false] [] 0.

(** Two visible, loaded sublevels of the same short name. *)
Definition twin_host : Host :=
  mkHost (Some (sample_sequence [mkTrack "Level Visibility" []] None))
         (Some [mkLevel "/Game/A/Sub" (streaming_level_in true true);
                mkLevel "/Game/B/Sub" (streaming_level_in true true)])
         [] [] 0.

(** A streaming level whose visibility flag cannot be read, before B. *)
Definition faulty_host : Host :=
  mkHost (Some (sample_sequence [mkTrack "Level Visibility" []] None))
         (Some [mkLevel "/Game/L/X" (Some (mkStreaming Raised (Ok true) None));
                mkLevel "/Game/L/B" (streaming_level_in true true)])
         [] [] 0.

(** [faulty_host] without the level that fails. *)
Definition mended_host : Host :=
  mkHost (Some (sample_sequence [mkTrack "Level Visibility" []] None))
         (Some [mkLevel "/Game/L/B" (streaming_level_in true true)])
         [] [] 0.

(** The sample world with a second visible, loaded sublevel D, and a track
    that already shows "B" on row 5. *)
Definition stocked_host : Host :=
  mkHost (Some (sample_sequence
                  [mkTrack "Level Visibility"
                           [mkSection 5 (0, 50)%Z ["B"] HIDDEN];
                   mkTrack "Other" [mkSection 0 (0, 10)%Z ["Z"] VISIBLE]]
                  None))
         (Some (sample_world ++ [mkLevel "/Game/L/D" (streaming_level_in true true)]))
         [] [] 0.

(** No sequence open in the editor. *)
Definition idle_host : Host :=
  mkHost None (Some sample_world) [] [] 0.

(** A sequence without a Level Visibility track, and none can be added. *)
Definition locked_host : Host :=
  mkHost (Some (sample_sequence [] None)) (Some sample_world) [] [] 0.

(** A sequence without a Level Visibility track, and no editor world. *)
Definition trackless_host : Host :=
  mkHost (Some (sample_sequence [] (Some "Level Visibility"))) None [] [] 0.

(** A sequence without a Level Visibility track, in a world of persistent
    levels only. *)
Definition persistent_host : Host :=
  mkHost (Some (sample_sequence [] (Some "Level Visibility")))
         (Some [mkLevel "/Game/L/A" None; mkLevel "/Game/L/P" None]) [] [] 0.

(** * Proofs *)

(** ** Strings *)

Lemma split_not_nil (sep : ascii) (s : string) : PyStr.split sep s <> [].
Proof.
  destruct s as [|c rest]; simpl; [discriminate|].
  destruct (Ascii.eqb c sep); [discriminate|].
  destruct (PyStr.split sep rest); discriminate.
Qed.

(** Cutting once from the right and cutting everywhere end in the same piece. *)
Lemma rsplit1_split (sep : ascii) (s : string) :
  (exists x, PyStr.rsplit1 sep s = [x] /\ PyStr.split sep s = [x])
  \/ (exists p x hd h2 tl,
        PyStr.rsplit1 sep s = [p; x]
        /\ PyStr.split sep s = hd :: h2 :: tl
        /\ last (h2 :: tl) EmptyString = x).
Proof.
  induction s as [|c rest IH]; simpl.
  - left; eauto.
  - destruct IH as [(x & Hr & Hs)|(p & x & hd & h2 & tl & Hr & Hs & Hl)];
      rewrite Hr, Hs; destruct (Ascii.eqb c sep).
    + right. exists EmptyString, x, EmptyString, x, []. auto.
    + left; eauto.
    + right. exists (String c p), x, EmptyString, hd, (h2 :: tl). auto.
    + right. exists (String c p), x, (String c hd), h2, tl. auto.
Qed.

Lemma rsplit1_last (sep : ascii) (s : string) :
  PyStr.item_m1 (PyStr.rsplit1 sep s) = last_segment sep s.
Proof.
  unfold last_segment, PyStr.item_m1.
  destruct (rsplit1_split sep s)
    as [(x & -> & ->)|(p & x & hd & h2 & tl & -> & -> & <-)]; reflexivity.
Qed.

(** The last segment holds no separator, and the string is the segment
    itself or ends in a separator followed by the segment. *)
Lemma last_segment_cut (sep : ascii) (s : string) :
  PyStr.contains sep (last_segment sep s) = false
  /\ (last_segment sep s = s
      \/ exists p, s = (p ++ String sep (last_segment sep s))%string).
Proof.
  unfold last_segment, PyStr.item_m1.
  assert (H : (exists x, PyStr.split sep s = [x] /\ x = s
                         /\ PyStr.contains sep s = false)
              \/ (exists hd h2 tl p,
                    PyStr.split sep s = hd :: h2 :: tl
                    /\ s = (p ++ String sep (last (h2 :: tl) EmptyString))%string
                    /\ PyStr.contains sep (last (h2 :: tl) EmptyString) = false)).
  { induction s as [|c rest IH]; simpl.
    - left; eauto.
    - destruct IH as [(x & Hs & -> & Hc)|(hd & h2 & tl & p & Hs & Hp & Hc)];
        rewrite Hs; destruct (Ascii.eqb c sep) eqn:Hcs.
      + right. apply Ascii.eqb_eq in Hcs; subst c.
        exists EmptyString, rest, [], EmptyString. auto.
      + left. exists (String c rest). auto.
      + right. apply Ascii.eqb_eq in Hcs; subst c.
        exists EmptyString, hd, (h2 :: tl), (String sep p).
        repeat split; [|exact Hc]. simpl. f_equal. exact Hp.
      + right. exists (String c hd), h2, tl, (String c p).
        repeat split; [|exact Hc]. simpl. f_equal. exact Hp. }
  destruct H as [(x & -> & -> & Hc)|(hd & h2 & tl & p & -> & Hp & Hc)].
  - simpl. auto.
  - change (last (hd :: h2 :: tl) EmptyString) with (last (h2 :: tl) EmptyString).
    split; [exact Hc|]. right. now exists p.
Qed.

(** C6. Name resolution: the three sample identities resolve to "MySub_A",
    to the empty string and to "Y"; in general [_short_name_from_package]
    is the rule "last '/'-segment, then what follows its last '.'", and its
    result holds neither '/' nor '.'. *)
Theorem short_name_resolution :
  _short_name_from_package "/Game/Maps/Sub/MySub_A" = "MySub_A"
  /\ _short_name_from_package "" = ""
  /\ _short_name_from_package "/Game/X/Y.Y" = "Y"
  /\ (forall identity : string,
        _short_name_from_package identity = resolve_primary identity)
  /\ (forall identity : string,
        let segment := last_segment "/" identity in
        let name := _short_name_from_package identity in
        PyStr.contains "/" segment = false
        /\ PyStr.contains "." name = false
        /\ (segment = identity
            \/ exists p, identity = (p ++ String "/" segment)%string)
        /\ (name = segment
            \/ exists q, segment = (q ++ String "." name)%string)).
Proof.
  assert (Heq : forall identity : string,
             _short_name_from_package identity = resolve_primary identity).
  { intros identity. unfold _short_name_from_package, resolve_primary.
    destruct identity as [|c rest]; [reflexivity|].
    cbn [PyStr.truthy negb]. now rewrite rsplit1_last. }
  repeat split; try reflexivity; try exact Heq;
    try (rewrite Heq; unfold resolve_primary); apply last_segment_cut.
Qed.

(** ** Lists and hosts *)

Lemma update_nth_middle {A : Type} (f : A -> A) (before after : list A) (x : A) :
  update_nth (length before) f (before ++ x :: after) = before ++ f x :: after.
Proof.
  induction before as [|y before IH]; simpl.
  - reflexivity.
  - now rewrite IH.
Qed.

Lemma update_nth_last {A : Type} (f : A -> A) (l : list A) (x : A) :
  update_nth (length l) f (l ++ [x]) = l ++ [f x].
Proof. apply update_nth_middle. Qed.

Lemma say_nil (h : Host) : say [] h = h.
Proof. destruct h; unfold say; simpl. now rewrite app_nil_r. Qed.

Lemma say_say (l1 l2 : list (Severity * Message)) (h : Host) :
  say l2 (say l1 h) = say (l1 ++ l2) h.
Proof. unfold say; simpl. now rewrite app_assoc. Qed.

Lemma unreal_log_say (sev : Severity) (msg : Message) (h : Host) :
  unreal_log sev msg h = (say [(sev, msg)] h, Ok tt).
Proof. reflexivity. Qed.

(** ** The loops against their outlines *)

Section LoopProofs.

Variable get_base_filename : string -> string.

Lemma gather_levels_scan (levels : list Level) :
  forall (paths names : list string) (h : Host),
    gather_levels get_base_filename levels paths names h =
    (say (scan_log levels) h,
     match scan get_base_filename levels with
     | Ok found => Ok (paths ++ map fst found, names ++ map snd found)
     | Raised => Raised
     end).
Proof.
  induction levels as [|lvl rest IH]; intros paths names h.
  - simpl. now rewrite say_nil, !app_nil_r.
  - cbn [gather_levels scan scan_log].
    unfold flags_raise, is_candidate, candidate_name.
    destruct (streaming_level lvl) as [streaming|].
    + unfold bind at 1, call at 1.
      destruct (is_level_visible streaming) as [v|]; [|now rewrite say_nil].
      unfold bind at 1, call at 1.
      destruct (is_level_loaded streaming) as [l|]; [|now rewrite say_nil].
      unfold bind at 1.
      assert (Hname : pretty_name_of streaming
                        (_short_name_from_package (package_name lvl)) h
                      = (h, Ok match get_world_asset_package_name streaming with
                               | Some (Ok pkg_name) =>
                                   if PyStr.truthy pkg_name
                                   then _short_name_from_package pkg_name
                                   else _short_name_from_package (package_name lvl)
                               | _ => _short_name_from_package (package_name lvl)
                               end)).
      { unfold pretty_name_of, try_except, bind, call, ret.
        destruct (get_world_asset_package_name streaming) as [[pkg|]|];
          try reflexivity.
        now destruct (PyStr.truthy pkg). }
      rewrite Hname.
      destruct v, l; simpl; rewrite IH; destruct (scan get_base_filename rest); simpl;
        try reflexivity;
        now rewrite <- !app_assoc.
    + unfold bind at 1. rewrite unreal_log_say, IH, say_say.
      now destruct (scan get_base_filename rest).
Qed.

End LoopProofs.

Lemma with_sections_at pn before tname secs after frames aty world outcomes lg r f :
  with_sections (length before) f
    (host_at pn before tname secs after frames aty world outcomes lg r)
  = host_at pn before tname (f secs) after frames aty world outcomes lg r.
Proof.
  unfold with_sections, with_tracks, host_at; simpl.
  now rewrite update_nth_middle.
Qed.

Lemma sections_at pn before tname secs after frames aty world outcomes lg r :
  sections (nth (length before)
                (tracks_of (host_at pn before tname secs after frames aty
                                    world outcomes lg r))
                (mkTrack "" []))
  = secs.
Proof. unfold tracks_of, host_at; simpl. now rewrite nth_middle. Qed.

(** One pass through the successful branch of step 7, and on to [k]. *)
Lemma create_section_at {A : Type} (k : M A)
    pn before tname secs after frames aty world outcomes lg r
    (row start_frame end_frame : Z) (name : string) :
  (set_row_index (length before) (length secs) row ;;
   set_range (length before) (length secs) start_frame end_frame ;;
   set_level_names (length before) (length secs) [name] ;;
   set_visibility (length before) (length secs) VISIBLE ;;
   unreal_log Display (AddedSection name) ;;
   k)
    (host_at pn before tname (secs ++ [fresh_section]) after frames aty
             world outcomes lg r)
  = k (host_at pn before tname
               (secs ++ [mkSection row (start_frame, end_frame) [name] VISIBLE])
               after frames aty world outcomes
               (lg ++ [(Display, AddedSection name)]) r).
Proof.
  unfold bind, set_row_index, set_range, set_level_names, set_visibility,
    set_section.
  rewrite !with_sections_at, !update_nth_last. reflexivity.
Qed.

Lemma add_section_at pn before tname secs after frames aty world outcomes lg r :
  add_section (length before)
    (host_at pn before tname secs after frames aty world outcomes lg r)
  = match outcomes with
    | false :: later =>
        (host_at pn before tname secs after frames aty world later lg r, Ok None)
    | _ =>
        (host_at pn before tname (secs ++ [fresh_section]) after frames aty world
                 (tl outcomes) lg r,
         Ok (Some (length secs)))
    end.
Proof.
  unfold add_section. rewrite sections_at.
  change (add_section_outcomes
            (host_at pn before tname secs after frames aty world outcomes lg r))
    with outcomes.
  destruct outcomes as [|[|] later].
  - now rewrite with_sections_at.
  - change (mkHost _ _ later _ _)
      with (host_at pn before tname secs after frames aty world later lg r).
    now rewrite with_sections_at.
  - reflexivity.
Qed.

Lemma add_sections_steps (existing : set string) (start_frame end_frame : Z)
    pn before tname after frames aty world r (names : list string) :
  forall (added : Z) (secs : list MovieSceneSection) (outcomes : list bool)
         (lg : list (Severity * Message)),
    let st := steps existing names outcomes added in
    add_sections (length before) start_frame end_frame existing names added
      (host_at pn before tname secs after frames aty world outcomes lg r)
    = (host_at pn before tname (secs ++ built (start_frame, end_frame) st)
               after frames aty world (skipn (attempts st) outcomes)
               (lg ++ map step_line st) r,
       Ok (added + Z.of_nat (creations st))%Z).
Proof.
  induction names as [|level_path rest IH]; intros added secs outcomes lg st.
  - subst st; simpl. unfold ret. now rewrite !app_nil_r, Z.add_0_r.
  - subst st. cbn [add_sections steps].
    destruct (py_in level_path existing).
    + unfold bind at 1. rewrite unreal_log_say.
      change (say [(Display, SkipPresent level_path)]
                (host_at pn before tname secs after frames aty world outcomes lg r))
        with (host_at pn before tname secs after frames aty world outcomes
                      (lg ++ [(Display, SkipPresent level_path)]) r).
      rewrite IH. simpl. now rewrite <- app_assoc.
    + unfold bind at 1. rewrite add_section_at.
      destruct outcomes as [|[|] later]; cbn [tl].
      * rewrite create_section_at, IH.
        unfold attempts, creations, built.
        cbn [flat_map map filter is_create is_skip negb length skipn].
        rewrite <- !app_assoc, !skipn_nil, Nat2Z.inj_succ, <- Z.add_1_l, Z.add_assoc.
        reflexivity.
      * rewrite create_section_at, IH.
        unfold attempts, creations, built.
        cbn [flat_map map filter is_create is_skip negb length skipn].
        rewrite <- !app_assoc, Nat2Z.inj_succ, <- Z.add_1_l, Z.add_assoc.
        reflexivity.
      * unfold bind at 1. rewrite unreal_log_say.
        change (say [(Warning, AddFailed level_path)]
                  (host_at pn before tname secs after frames aty world later lg r))
          with (host_at pn before tname secs after frames aty world later
                        (lg ++ [(Warning, AddFailed level_path)]) r).
        rewrite IH. unfold attempts, creations, built; simpl.
        now rewrite <- app_assoc.
Qed.

(** Step 7 on the first track, the one the script always works on. *)
Lemma add_sections_first (existing : set string) (start_frame end_frame : Z)
    pn tname secs after frames aty world outcomes lg r
    (names : list string) (added : Z) :
  add_sections 0 start_frame end_frame existing names added
    (mkHost (Some (mkSequence pn (mkTrack tname secs :: after) frames aty))
            world outcomes lg r)
  = (mkHost
       (Some (mkSequence pn
                (mkTrack tname
                   (secs ++ built (start_frame, end_frame)
                                  (steps existing names outcomes added))
                   :: after)
                frames aty))
       world
       (skipn (attempts (steps existing names outcomes added)) outcomes)
       (lg ++ map step_line (steps existing names outcomes added)) r,
     Ok (added + Z.of_nat (creations (steps existing names outcomes added)))%Z).
Proof.
  exact (add_sections_steps existing start_frame end_frame pn [] tname after
           frames aty world r names added secs outcomes lg).
Qed.

(** ** The script against its outline *)

Ltac finish_run :=
  cbn -[add_sections steps built attempts creations existing_names sorted];
  unfold unreal_log, refresh_current_level_sequence, say;
  cbn -[add_sections steps built attempts creations existing_names sorted];
  rewrite <- ?app_assoc; reflexivity.

Ltac run_loops get_base_filename world :=
  unfold bind;
  cbn -[add_sections steps built attempts creations existing_names sorted];
  rewrite gather_levels_scan; unfold get_levels, say;
  destruct (scan get_base_filename world) as [[|c found]|];
  cbn -[add_sections steps built attempts creations existing_names sorted];
  rewrite ?add_sections_first;
  finish_run.

Theorem sync_outline_correct (get_base_filename : string -> string) (h : Host) :
  sync_visible_levels_to_sequencer get_base_filename h
  = sync_outline get_base_filename h.
Proof.
  destruct h as [[[pn ts [start_frame end_frame] aty]|] world outcomes lg r];
    [|reflexivity].
  unfold sync_visible_levels_to_sequencer, sync_outline, ensured_tracks.
  cbn [current_level_sequence visibility_tracks add_track_yields path_name
       editor_world playback_range add_section_outcomes output_log refreshes].
  destruct ts as [|[tname secs] others]; [destruct aty as [name|]|];
    [ | finish_run | ];
    (destruct world as [world|]; [ | finish_run ]).
  - run_loops get_base_filename world.
  - run_loops get_base_filename world.
Qed.

(** ** What a run changes *)

Lemma skipn_length_app {A : Type} (l l' : list A) :
  skipn (length l) (l ++ l') = l'.
Proof. induction l as [|x l IH]; simpl; auto. Qed.

Ltac split_host h :=
  destruct h as [[[pn [|[tname secs] others] [start_frame end_frame] [name|]]|]
                   [world|] outcomes lg r].

Section RunProofs.

Variable get_base_filename : string -> string.

Lemma run_effect (h : Host) :
  let h' := after_sync get_base_filename h in
  working_sections h'
  = working_sections h ++ built (frames_of h) (run_steps get_base_filename h)
  /\ tl (tracks_of h') = tl (tracks_of h)
  /\ editor_world h' = editor_world h
  /\ frames_of h' = frames_of h
  /\ add_section_outcomes h'
     = skipn (attempts (run_steps get_base_filename h)) (add_section_outcomes h).
Proof.
  unfold after_sync. rewrite sync_outline_correct.
  unfold sync_outline, run_steps, candidates, existing_before, working_sections,
    frames_of, tracks_of, ensured_tracks.
  split_host h;
    cbn [current_level_sequence visibility_tracks add_track_yields path_name
         editor_world playback_range add_section_outcomes output_log refreshes
         sections track_name];
    try (destruct (scan get_base_filename world) as [[|c found]|]);
    cbn -[steps built attempts existing_names];
    rewrite ?app_nil_r; repeat split; reflexivity.
Qed.

End RunProofs.

(** ** Step 7, name by name *)

Lemma py_in_true (x : string) (s : set string) : py_in x s = true <-> In x s.
Proof.
  unfold py_in; split.
  - apply set_mem_correct1.
  - apply set_mem_correct2.
Qed.

Lemma steps_partition (existing : set string) (names : list string) :
  forall (outcomes : list bool) (added : Z),
    let st := steps existing names outcomes added in
    creations st + length (filter is_fail st) + length (filter is_skip st)
    = length names.
Proof.
  unfold creations.
  induction names as [|n rest IH]; intros outcomes added; simpl.
  - reflexivity.
  - destruct (py_in n existing); [|destruct outcomes as [|[|] later]]; simpl;
      match goal with
      | |- context [steps existing rest ?oc ?ad] => pose proof (IH oc ad)
      end; lia.
Qed.

Lemma steps_attempts (existing : set string) (names : list string) :
  forall (outcomes : list bool) (added : Z),
    attempts (steps existing names outcomes added)
    = length (filter (fun name => negb (py_in name existing)) names).
Proof.
  unfold attempts.
  induction names as [|n rest IH]; intros outcomes added; simpl.
  - reflexivity.
  - destruct (py_in n existing); [|destruct outcomes as [|[|] later]]; simpl;
      now rewrite IH.
Qed.

Lemma steps_failures (existing : set string) (names : list string) :
  forall (outcomes : list bool) (added : Z),
    let st := steps existing names outcomes added in
    length (filter is_fail st) = failures_within (attempts st) outcomes.
Proof.
  unfold attempts, failures_within.
  induction names as [|n rest IH]; intros outcomes added; simpl.
  - reflexivity.
  - destruct (py_in n existing); [|destruct outcomes as [|[|] later]]; simpl.
    + apply IH.
    + rewrite IH. now rewrite firstn_nil.
    + apply IH.
    + now rewrite IH.
Qed.

Lemma built_length (frames : Z * Z) (st : list Step) :
  length (built frames st) = creations st.
Proof.
  unfold built, creations.
  induction st as [|[n|n|n row] st IH]; simpl; auto.
Qed.

Lemma steps_rows (frames : Z * Z) (existing : set string) (names : list string) :
  forall (outcomes : list bool) (added : Z),
    let st := steps existing names outcomes added in
    map row_index (built frames st)
    = map (fun i => (added + Z.of_nat i)%Z) (seq 0 (creations st)).
Proof.
  unfold built, creations.
  induction names as [|n rest IH]; intros outcomes added; simpl.
  - reflexivity.
  - destruct (py_in n existing); [|destruct outcomes as [|[|] later]];
      cbn [flat_map filter is_create length app map seq]; try apply IH.
    + rewrite IH, <- seq_shift, map_map. f_equal; [simpl; lia|].
      apply map_ext; intros i. lia.
    + rewrite IH, <- seq_shift, map_map. f_equal; [simpl; lia|].
      apply map_ext; intros i. lia.
Qed.

Lemma steps_built (frames : Z * Z) (existing : set string) (names : list string) :
  forall (outcomes : list bool) (added : Z),
    Forall (fun sec =>
              visibility sec = VISIBLE
              /\ range sec = frames
              /\ exists name,
                   level_names sec = [name]
                   /\ In name names /\ py_in name existing = false)
           (built frames (steps existing names outcomes added)).
Proof.
  unfold built.
  induction names as [|n rest IH]; intros outcomes added; simpl.
  - constructor.
  - assert (Hweak : forall oc ad,
               Forall (fun sec =>
                         visibility sec = VISIBLE
                         /\ range sec = frames
                         /\ exists name,
                              level_names sec = [name]
                              /\ (n = name \/ In name rest)
                              /\ py_in name existing = false)
                      (flat_map
                         (fun s => match s with
                                   | Create name row =>
                                       [mkSection row frames [name] VISIBLE]
                                   | _ => []
                                   end) (steps existing rest oc ad))).
    { intros oc ad. eapply Forall_impl; [|apply (IH oc ad)].
      intros sec (Hv & Hr & name & Hn & Hin & Hex). eauto 8. }
    destruct (py_in n existing) eqn:Hn; [apply Hweak|].
    destruct outcomes as [|[|] later]; simpl; try apply Hweak;
      (constructor; [simpl; eauto 8 | apply Hweak]).
Qed.

(** Every name is skipped, fails, or gets a section. *)
Lemma steps_cover (frames : Z * Z) (existing : set string) (names : list string) :
  forall (outcomes : list bool) (added : Z) (name : string),
    In name names ->
    let st := steps existing names outcomes added in
    In name existing
    \/ In (Fail name) st
    \/ exists sec, In sec (built frames st) /\ level_names sec = [name].
Proof.
  unfold built.
  induction names as [|n rest IH]; intros outcomes added name Hin; simpl in *.
  - contradiction.
  - destruct Hin as [->|Hin].
    + destruct (py_in name existing) eqn:Hn.
      * left. now apply py_in_true.
      * destruct outcomes as [|[|] later]; simpl;
          try (right; right; eexists; split; [left; reflexivity|reflexivity]).
        right; left; now left.
    + destruct (py_in n existing);
        [|destruct outcomes as [|[|] later]]; simpl;
        match goal with
        | |- context [steps existing rest ?oc ?ad] =>
            destruct (IH oc ad name Hin) as [H|[H|(sec & H & Hs)]]
        end; eauto 8.
Qed.

(** ** Steps 4 and 6 *)

Lemma add_names_in (x : string) (names : list string) :
  forall acc : set string,
    In x (fold_left (fun existing name_or_path =>
                       set_add string_dec name_or_path existing) names acc)
    <-> In x acc \/ In x names.
Proof.
  induction names as [|n names IH]; intros acc; simpl.
  - tauto.
  - rewrite IH, set_add_iff. intuition congruence.
Qed.

Lemma existing_names_from (x : string) (secs : list MovieSceneSection) :
  forall acc : set string,
    In x (fold_left
            (fun existing section =>
               fold_left (fun existing name_or_path =>
                            set_add string_dec name_or_path existing)
                         (level_names section) existing)
            secs acc)
    <-> In x acc \/ exists sec, In sec secs /\ In x (level_names sec).
Proof.
  induction secs as [|s secs IH]; intros acc; simpl.
  - split; [tauto|]. intros [H|(sec & [] & _)]. exact H.
  - rewrite IH, add_names_in. split.
    + intros [[H|H]|(sec & Hs & Hx)]; eauto.
    + intros [H|(sec & [<-|Hs] & Hx)]; eauto.
Qed.

Lemma existing_names_in (x : string) (secs : list MovieSceneSection) :
  In x (existing_names secs)
  <-> exists sec, In sec secs /\ In x (level_names sec).
Proof.
  unfold existing_names. rewrite existing_names_from. simpl. tauto.
Qed.

Section ScanProofs.

Variable get_base_filename : string -> string.

Lemma scan_filter (levels : list Level) :
  forall found,
    scan get_base_filename levels = Ok found ->
    found = map (fun lvl => (package_name lvl, candidate_name get_base_filename lvl))
                (filter is_candidate levels).
Proof.
  induction levels as [|lvl rest IH]; simpl; intros found H.
  - now inversion H.
  - destruct (flags_raise lvl); [discriminate|].
    destruct (scan get_base_filename rest) as [found'|]; [|discriminate].
    inversion H; subst. rewrite (IH found' eq_refl).
    now destruct (is_candidate lvl).
Qed.

Lemma scan_raises (levels : list Level) :
  scan get_base_filename levels = Raised <-> existsb flags_raise levels = true.
Proof.
  induction levels as [|lvl rest IH]; simpl.
  - split; discriminate.
  - destruct (flags_raise lvl); simpl; [tauto|].
    rewrite <- IH. destruct (scan get_base_filename rest); split; congruence.
Qed.

Lemma is_candidate_true (lvl : Level) :
  is_candidate lvl = true
  <-> exists streaming,
        streaming_level lvl = Some streaming
        /\ is_level_visible streaming = Ok true
        /\ is_level_loaded streaming = Ok true.
Proof.
  unfold is_candidate. split.
  - destruct (streaming_level lvl) as [st|]; [|discriminate].
    destruct (is_level_visible st) as [[|]|] eqn:Hv; try discriminate;
      destruct (is_level_loaded st) as [[|]|] eqn:Hl; try discriminate.
    intros _. exists st. auto.
  - intros (st & -> & -> & ->). reflexivity.
Qed.

(** The names gathered are those of the candidate levels of the world. *)
Lemma candidates_of_world (h : Host) (name : string) :
  In name (candidates get_base_filename h) ->
  exists world lvl,
    editor_world h = Some world /\ In lvl world /\ is_candidate lvl = true
    /\ name = candidate_name get_base_filename lvl.
Proof.
  unfold candidates.
  destruct (current_level_sequence h) as [sq|]; [|contradiction].
  destruct (ensured_tracks sq); [|contradiction].
  destruct (editor_world h) as [world|]; [|contradiction].
  destruct (scan get_base_filename world) as [found|] eqn:Hscan; [|contradiction].
  apply scan_filter in Hscan. subst found. rewrite map_map; simpl.
  intros Hin. apply in_map_iff in Hin as (lvl & <- & Hl).
  apply filter_In in Hl as [Hl Hc]. eauto 8.
Qed.

End ScanProofs.

(** ** The log of a run *)

Lemma scan_log_quiet (levels : list Level) : Forall quiet_line (scan_log levels).
Proof.
  induction levels as [|lvl rest IH]; simpl.
  - constructor.
  - destruct (flags_raise lvl); [constructor|].
    destruct (streaming_level lvl); [exact IH|].
    constructor; [reflexivity|exact IH].
Qed.

Ltac quiet_lines :=
  repeat first [ apply Forall_nil
               | apply scan_log_quiet
               | apply Forall_cons; [reflexivity|]
               | apply Forall_app; split ].

Section LogProofs.

Variable get_base_filename : string -> string.

Lemma run_log_shape (h : Host) :
  exists prefix suffix,
    logged get_base_filename h
    = prefix ++ map step_line (run_steps get_base_filename h) ++ suffix
    /\ Forall quiet_line prefix
    /\ Forall quiet_line suffix
    /\ (candidates get_base_filename h <> [] ->
        suffix = [(Warning,
                   SyncComplete
                     (Z.of_nat (creations (run_steps get_base_filename h))))]
        /\ snd (sync_visible_levels_to_sequencer get_base_filename h) = Ok tt
        /\ refreshes (after_sync get_base_filename h) = S (refreshes h)).
Proof.
  unfold logged, after_sync. rewrite sync_outline_correct.
  unfold sync_outline, run_steps, candidates, existing_before, working_sections,
    tracks_of, ensured_tracks.
  split_host h;
    cbn [current_level_sequence visibility_tracks add_track_yields path_name
         editor_world playback_range add_section_outcomes output_log refreshes
         sections track_name];
    try (destruct (scan get_base_filename world) as [[|c found]|]);
    cbn -[steps built attempts creations existing_names sorted];
    rewrite skipn_length_app;
    try (lazymatch goal with
         | |- context [steps ?e [] ?o ?a] =>
             change (steps e [] o a) with (@nil Step);
             lazymatch goal with
             | |- exists prefix suffix, ?X = _ /\ _ =>
                 exists X, []; cbn [map app]; rewrite ?app_nil_r;
                 repeat split; try congruence; quiet_lines
             end
         end).
  all: lazymatch goal with
       | |- exists prefix suffix,
              ?a :: ?b :: ?c :: scan_log ?w ++ ?d :: ?e :: ?f :: ?m ++ ?last
              = _ /\ _ =>
           exists ([a; b; c] ++ scan_log w ++ [d; e; f]), last;
           split; [now rewrite <- !app_assoc|];
           repeat split; quiet_lines
       end.
Qed.

End LogProofs.

(** ** Sections and log lines of a run *)

Lemma count_lines_app (p : Message -> bool) (l1 l2 : list (Severity * Message)) :
  count_lines p (l1 ++ l2) = count_lines p l1 + count_lines p l2.
Proof. unfold count_lines. now rewrite filter_app, length_app. Qed.

Lemma count_lines_quiet (p : Message -> bool) (l : list (Severity * Message)) :
  (forall m, is_step_message m = false -> p m = false) ->
  Forall quiet_line l -> count_lines p l = 0.
Proof.
  intros Hp Hl. unfold count_lines.
  induction Hl as [|line l Hq _ IH]; simpl; [reflexivity|].
  now rewrite (Hp _ Hq).
Qed.

Lemma count_lines_steps (p : Message -> bool) (st : list Step) :
  count_lines p (map step_line st)
  = length (filter (fun s => p (snd (step_line s))) st).
Proof.
  unfold count_lines.
  induction st as [|s st IH]; simpl; [reflexivity|].
  destruct (p (snd (step_line s))); simpl; now rewrite IH.
Qed.

Section CountProofs.

Variable get_base_filename : string -> string.

Lemma created_built (h : Host) :
  created get_base_filename h
  = built (frames_of h) (run_steps get_base_filename h).
Proof.
  unfold created.
  destruct (run_effect get_base_filename h) as (-> & _).
  apply skipn_length_app.
Qed.

Lemma run_counts (p : Message -> bool) (h : Host) :
  (forall m, is_step_message m = false -> p m = false) ->
  count_lines p (logged get_base_filename h)
  = length (filter (fun s => p (snd (step_line s)))
                   (run_steps get_base_filename h)).
Proof.
  intros Hp.
  destruct (run_log_shape get_base_filename h)
    as (prefix & suffix & -> & Hpre & Hsuf & _).
  rewrite !count_lines_app, count_lines_steps,
    (count_lines_quiet p prefix Hp Hpre), (count_lines_quiet p suffix Hp Hsuf).
  lia.
Qed.

Lemma filter_same {A : Type} (f g : A -> bool) (l : list A) :
  (forall x, f x = g x) -> filter f l = filter g l.
Proof. intros H. apply filter_ext. exact H. Qed.

Lemma failed_lines (h : Host) :
  count_lines is_add_failed (logged get_base_filename h)
  = length (filter is_fail (run_steps get_base_filename h)).
Proof.
  rewrite run_counts.
  - f_equal. apply filter_same. now intros [n|n|n row].
  - intros m. unfold is_step_message. destruct (is_add_failed m); simpl; congruence.
Qed.

Lemma skipped_lines (h : Host) :
  count_lines is_skip_present (logged get_base_filename h)
  = length (filter is_skip (run_steps get_base_filename h)).
Proof.
  rewrite run_counts.
  - f_equal. apply filter_same. now intros [n|n|n row].
  - intros m. unfold is_step_message.
    destruct (is_add_failed m), (is_skip_present m); simpl; congruence.
Qed.

Lemma added_lines (h : Host) :
  count_lines is_added_section (logged get_base_filename h)
  = creations (run_steps get_base_filename h).
Proof.
  unfold creations. rewrite run_counts.
  - f_equal. apply filter_same. now intros [n|n|n row].
  - intros m. unfold is_step_message.
    destruct (is_add_failed m), (is_skip_present m), (is_added_section m);
      simpl; congruence.
Qed.

End CountProofs.

(** * The claims *)

(** C5. Row allocation: the sections a run creates are appended to the
    working track and carry the rows 0, 1, ..., n-1 in creation order,
    whatever rows the sections already on the track use. *)
Theorem rows_contiguous (get_base_filename : string -> string) (h : Host) :
  working_sections (after_sync get_base_filename h)
  = working_sections h ++ created get_base_filename h
  /\ map row_index (created get_base_filename h)
     = map Z.of_nat (seq 0 (length (created get_base_filename h))).
Proof.
  split.
  - rewrite created_built. apply run_effect.
  - rewrite created_built, built_length. unfold run_steps.
    rewrite steps_rows. apply map_ext. intros i. lia.
Qed.



(** C9. Per-interval creation failure: in a run that gathered candidates,
    with [n] of them not yet on the track, [add_section] is called [n]
    times; each call that returns nothing costs one section and one
    "failed to add" warning, kept apart from the "already present" lines of
    the skipped names; the run still ends with its completion line, whose
    count is [n] less the failures, and refreshes the Sequencer. *)
Theorem creation_failures_recovered (get_base_filename : string -> string)
    (h : Host) :
  candidates get_base_filename h <> [] ->
  let n := length (to_add get_base_filename h) in
  let failed := failures_within n (add_section_outcomes h) in
  snd (sync_visible_levels_to_sequencer get_base_filename h) = Ok tt
  /\ refreshes (after_sync get_base_filename h) = S (refreshes h)
  /\ add_section_outcomes (after_sync get_base_filename h)
     = skipn n (add_section_outcomes h)
  /\ length (created get_base_filename h) + failed = n
  /\ count_lines is_add_failed (logged get_base_filename h) = failed
  /\ count_lines is_skip_present (logged get_base_filename h)
     = length (candidates get_base_filename h) - n
  /\ count_lines is_added_section (logged get_base_filename h)
     = length (created get_base_filename h)
  /\ last (logged get_base_filename h) (Error, NoActiveSequence)
     = (Warning,
        SyncComplete (Z.of_nat (length (created get_base_filename h)))).
Proof.
  intros Hcand n failed.
  destruct (run_log_shape get_base_filename h)
    as (prefix & suffix & Hlog & _ & _ & Hdone).
  destruct (Hdone Hcand) as (-> & Hok & Hrefresh).
  destruct (run_effect get_base_filename h) as (_ & _ & _ & _ & Houtcomes).
  pose proof (steps_partition (existing_before h)
                (candidates get_base_filename h) (add_section_outcomes h) 0%Z)
    as Hpart.
  pose proof (steps_attempts (existing_before h)
                (candidates get_base_filename h) (add_section_outcomes h) 0%Z)
    as Hatt.
  pose proof (steps_failures (existing_before h)
                (candidates get_base_filename h) (add_section_outcomes h) 0%Z)
    as Hfail.
  cbv zeta in Hpart, Hfail.
  fold (run_steps get_base_filename h) in Hpart, Hatt, Hfail.
  fold (to_add get_base_filename h) in Hatt. fold n in Hatt.
  rewrite Hatt in Hfail, Houtcomes. fold failed in Hfail.
  assert (Hsum : attempts (run_steps get_base_filename h)
                 = creations (run_steps get_base_filename h)
                   + length (filter is_fail (run_steps get_base_filename h))).
  { unfold attempts, creations. clear.
    induction (run_steps get_base_filename h) as [|[x|x|x row] st IH];
      simpl; lia. }
  rewrite Hatt in Hsum.
  rewrite failed_lines, skipped_lines, added_lines, created_built, built_length.
  repeat split; try assumption; try lia.
  rewrite Hlog, !app_assoc. apply last_last.
Qed.

Lemma creation_failures_recovered_witness :
  snd (sync_visible_levels_to_sequencer base_filename flaky_host) = Ok tt
  /\ refreshes (after_sync base_filename flaky_host) = 1
  /\ add_section_outcomes (after_sync base_filename flaky_host) = []
  /\ length (created base_filename flaky_host) + 1 = 1
  /\ count_lines is_add_failed (logged base_filename flaky_host) = 1
  /\ count_lines is_skip_present (logged base_filename flaky_host) = 0
  /\ count_lines is_added_section (logged base_filename flaky_host)
     = length (created base_filename flaky_host)
  /\ last (logged base_filename flaky_host) (Error, NoActiveSequence)
     = (Warning,
        SyncComplete (Z.of_nat (length (created base_filename flaky_host)))).
Proof.
  apply (creation_failures_recovered base_filename flaky_host).
  vm_compute. discriminate.
Defined.

(** C8. Precondition failure: with no sequence open, or with no Level
    Visibility track to be found or created, the run returns normally
    after logging an error; the sequence and all its tracks are as before,
    no [add_section] call was made and the Sequencer was not refreshed. *)
Theorem precondition_failure_aborts (get_base_filename : string -> string)
    (h : Host) :
  current_level_sequence h = None
  \/ (exists sq, current_level_sequence h = Some sq
                 /\ visibility_tracks sq = [] /\ add_track_yields sq = None) ->
  snd (sync_visible_levels_to_sequencer get_base_filename h) = Ok tt
  /\ current_level_sequence (after_sync get_base_filename h)
     = current_level_sequence h
  /\ tracks_of (after_sync get_base_filename h) = tracks_of h
  /\ created get_base_filename h = []
  /\ add_section_outcomes (after_sync get_base_filename h)
     = add_section_outcomes h
  /\ refreshes (after_sync get_base_filename h) = refreshes h
  /\ (logged get_base_filename h = [(Error, NoActiveSequence)]
      \/ exists path,
           logged get_base_filename h
           = [(Display, Processing path); (Error, TrackUnavailable)]).
Proof.
  intros Hpre. unfold created, logged, after_sync.
  rewrite sync_outline_correct. unfold sync_outline, ensured_tracks, tracks_of.
  destruct h as [[sq|] world outcomes lg r]; simpl in *.
  - destruct Hpre as [Hnone|(sq' & Hsq & Hts & Hadd)]; [discriminate|].
    inversion Hsq; subst sq'. rewrite Hts, Hadd. simpl.
    rewrite Hts, skipn_length_app, skipn_all. eauto 10.
  - rewrite skipn_length_app. auto 10.
Qed.

Lemma precondition_failure_aborts_witness :
  snd (sync_visible_levels_to_sequencer base_filename idle_host) = Ok tt
  /\ current_level_sequence (after_sync base_filename idle_host) = None
  /\ tracks_of (after_sync base_filename idle_host) = []
  /\ created base_filename idle_host = []
  /\ add_section_outcomes (after_sync base_filename idle_host) = []
  /\ refreshes (after_sync base_filename idle_host) = 0
  /\ (logged base_filename idle_host = [(Error, NoActiveSequence)]
      \/ exists path,
           logged base_filename idle_host
           = [(Display, Processing path); (Error, TrackUnavailable)]).
Proof.
  apply (precondition_failure_aborts base_filename idle_host).
  left. reflexivity.
Defined.

(** The other precondition: no track, and none can be added. *)
Example locked_host_aborts :
  tracks_of (after_sync base_filename locked_host) = []
  /\ logged base_filename locked_host
     = [(Display, Processing "/Game/Seq"); (Error, TrackUnavailable)].
Proof. split; reflexivity. Qed.

(** C10. A sequence without a Level Visibility track gets one before the
    editor world is looked at, and keeps it: the new track is there after
    the run in every case, and it is there, empty, when the run aborts for
    want of an editor world or gathers no candidate. *)
Theorem created_track_persists (get_base_filename : string -> string)
    (h : Host) (sq : LevelSequence) (name : string) :
  current_level_sequence h = Some sq ->
  visibility_tracks sq = [] ->
  add_track_yields sq = Some name ->
  (exists secs, tracks_of (after_sync get_base_filename h) = [mkTrack name secs])
  /\ (editor_world h = None ->
      tracks_of (after_sync get_base_filename h) = [mkTrack name []]
      /\ logged get_base_filename h
         = [(Display, Processing (path_name sq)); (Display, UsingTrack name);
            (Error, NoEditorWorld)])
  /\ (candidates get_base_filename h = [] ->
      tracks_of (after_sync get_base_filename h) = [mkTrack name []])
  /\ (forall world,
        editor_world h = Some world ->
        scan get_base_filename world = Ok [] ->
        last (logged get_base_filename h) (Error, NoActiveSequence)
        = (Warning, NothingToAdd)).
Proof.
  intros Hsq Hts Hadd. unfold logged, after_sync, candidates.
  rewrite sync_outline_correct. unfold sync_outline, ensured_tracks, tracks_of.
  destruct h as [cs world outcomes lg r]; simpl in *. subst cs.
  rewrite Hts, Hadd.
  destruct world as [world|];
    [destruct (scan get_base_filename world) as [[|c found]|] eqn:Hscan|];
    cbn -[steps built attempts creations existing_names sorted];
    rewrite ?Hts, ?skipn_length_app;
    repeat split; eauto; try discriminate; try congruence;
    intros w Hw Hnone; inversion Hw; subst w; try congruence.
  change ((Display, Processing (path_name sq))
            :: (Display, UsingTrack name)
            :: (Display, FoundLevels (length world))
            :: scan_log world ++ [(Warning, NothingToAdd)])
    with (([(Display, Processing (path_name sq)); (Display, UsingTrack name);
            (Display, FoundLevels (length world))] ++ scan_log world)
            ++ [(Warning, NothingToAdd)]).
  apply last_last.
Qed.

Lemma created_track_persists_witness :
  (exists secs,
      tracks_of (after_sync base_filename trackless_host)
      = [mkTrack "Level Visibility" secs])
  /\ (editor_world trackless_host = None ->
      tracks_of (after_sync base_filename trackless_host)
      = [mkTrack "Level Visibility" []]
      /\ logged base_filename trackless_host
         = [(Display, Processing "/Game/Seq");
            (Display, UsingTrack "Level Visibility");
            (Error, NoEditorWorld)])
  /\ (candidates base_filename trackless_host = [] ->
      tracks_of (after_sync base_filename trackless_host)
      = [mkTrack "Level Visibility" []])
  /\ (forall world,
        editor_world trackless_host = Some world ->
        scan base_filename world = Ok [] ->
        last (logged base_filename trackless_host) (Error, NoActiveSequence)
        = (Warning, NothingToAdd)).
Proof.
  apply (created_track_persists base_filename trackless_host
           (sample_sequence [] (Some "Level Visibility")) "Level Visibility");
    reflexivity.
Defined.

(** The no-op run: persistent levels only, and the new track stays. *)
Example persistent_host_keeps_track :
  tracks_of (after_sync base_filename persistent_host)
  = [mkTrack "Level Visibility" []]
  /\ last (logged base_filename persistent_host) (Error, NoActiveSequence)
     = (Warning, NothingToAdd).
Proof. split; reflexivity. Qed.

(** A world of persistent levels only gives no candidate. *)
Lemma persistent_world_no_candidates (get_base_filename : string -> string)
    (h : Host) (world : list Level) :
  editor_world h = Some world ->
  (forall lvl, In lvl world -> streaming_level lvl = None) ->
  candidates get_base_filename h = [].
Proof.
  intros Hworld Hpersistent.
  destruct (candidates get_base_filename h) as [|name more] eqn:Hc;
    [reflexivity|].
  assert (Hin : In name (candidates get_base_filename h))
    by (rewrite Hc; now left).
  apply candidates_of_world in Hin as (w & lvl & Hw & Hl & Hcand & _).
  rewrite Hworld in Hw; inversion Hw; subst w.
  unfold is_candidate in Hcand. now rewrite (Hpersistent lvl Hl) in Hcand.
Qed.

Lemma gathered_are_candidates (get_base_filename : string -> string)
    (levels : list Level) (h h' : Host) (paths names : list string) :
  gather_levels get_base_filename levels [] [] h = (h', Ok (paths, names)) ->
  paths = map package_name (filter is_candidate levels)
  /\ names = map (candidate_name get_base_filename) (filter is_candidate levels).
Proof.
  intros Hrun. rewrite gather_levels_scan in Hrun.
  destruct (scan get_base_filename levels) as [found|] eqn:Hscan;
    [|inversion Hrun].
  apply scan_filter in Hscan. inversion Hrun; subst.
  now rewrite !map_map.
Qed.

(** C4. Candidate filter: every section a run creates names a level of
    the world that has a streaming wrapper and is visible and loaded; step
    4 gathers exactly the levels that pass [is_candidate], in order, and a
    streaming level that is visible but not loaded does not pass; a world
    of persistent levels only gets no section. *)
Theorem candidate_filter (get_base_filename : string -> string) :
  (forall (h : Host) (sec : MovieSceneSection),
      In sec (created get_base_filename h) ->
      exists world lvl streaming,
        editor_world h = Some world
        /\ In lvl world
        /\ streaming_level lvl = Some streaming
        /\ is_level_visible streaming = Ok true
        /\ is_level_loaded streaming = Ok true
        /\ level_names sec = [shown_name get_base_filename lvl streaming])
  /\ (forall (levels : list Level) (h h' : Host) (paths names : list string),
        gather_levels get_base_filename levels [] [] h = (h', Ok (paths, names)) ->
        paths = map package_name (filter is_candidate levels)
        /\ names = map (candidate_name get_base_filename)
                       (filter is_candidate levels))
  /\ (forall (package_path : string) (get_pkg : option (Exc string)),
        is_candidate
          (mkLevel package_path
                   (Some (mkStreaming (Ok true) (Ok false) get_pkg)))
        = false)
  /\ (forall (h : Host) (world : list Level),
        editor_world h = Some world ->
        (forall lvl, In lvl world -> streaming_level lvl = None) ->
        created get_base_filename h = []
        /\ working_sections (after_sync get_base_filename h)
           = working_sections h
        /\ count_lines is_added_section (logged get_base_filename h) = 0).
Proof.
  split; [|split; [|split]].
  - intros h sec Hin.
    rewrite created_built in Hin. unfold run_steps in Hin.
    pose proof (steps_built (frames_of h) (existing_before h)
                  (candidates get_base_filename h) (add_section_outcomes h) 0%Z)
      as Hall.
    rewrite Forall_forall in Hall.
    destruct (Hall sec Hin) as (_ & _ & name & Hn & Hc & _).
    apply candidates_of_world in Hc as (world & lvl & Hw & Hl & Hcand & ->).
    apply is_candidate_true in Hcand as (streaming & Hs & Hv & Hld).
    exists world, lvl, streaming. unfold candidate_name in Hn.
    rewrite Hs in Hn. auto 10.
  - apply gathered_are_candidates.
  - reflexivity.
  - intros h world Hworld Hpersistent.
    pose proof (persistent_world_no_candidates get_base_filename h world
                  Hworld Hpersistent) as Hnone.
    destruct (run_effect get_base_filename h) as (Hsecs & _).
    rewrite Hsecs, added_lines, created_built. unfold run_steps.
    rewrite Hnone. simpl. now rewrite app_nil_r.
Qed.

Lemma candidate_filter_witness :
  exists world lvl streaming,
    editor_world sample_host = Some world
    /\ In lvl world
    /\ streaming_level lvl = Some streaming
    /\ is_level_visible streaming = Ok true
    /\ is_level_loaded streaming = Ok true
    /\ level_names (mkSection 0 (0, 100)%Z ["B"] VISIBLE)
       = [shown_name base_filename lvl streaming].
Proof.
  apply (proj1 (candidate_filter base_filename) sample_host).
  vm_compute. left. reflexivity.
Defined.

(** C3, as stated, fails: the level whose visibility flag cannot be read
    takes the whole run with it.  The exception leaves the script, and B,
    which comes after it and gets its section once the failing level is
    gone, gets none. *)
Lemma flag_failure_aborts_run :
  snd (sync_visible_levels_to_sequencer base_filename faulty_host) = Raised
  /\ created base_filename faulty_host = []
  /\ created base_filename mended_host = [mkSection 0 (0, 100)%Z ["B"] VISIBLE].
Proof. repeat split; reflexivity. Qed.

Lemma scan_same_when_lookup_raises (get_base_filename : string -> string)
    (before after : list Level) (package_path : string)
    (visible loaded : Exc bool) :
  let failing := mkLevel package_path
                         (Some (mkStreaming visible loaded (Some Raised))) in
  let plain := mkLevel package_path (Some (mkStreaming visible loaded None)) in
  scan get_base_filename (before ++ failing :: after)
  = scan get_base_filename (before ++ plain :: after)
  /\ scan_log (before ++ failing :: after) = scan_log (before ++ plain :: after).
Proof.
  intros failing plain.
  induction before as [|lvl before [IHscan IHlog]]; simpl.
  - split; reflexivity.
  - now rewrite IHscan, IHlog.
Qed.

(** C3, amended. What step 4 recovers from is a failure of the optional
    package-name lookup: a wrapper whose lookup raises is gathered exactly
    as one without the accessor, and the gathering completes whenever no
    flag read raises.  A flag that cannot be read is not recovered from:
    the exception ends the gathering and the run, before any section is
    created and without a refresh. *)
Theorem capture_failure_policy (get_base_filename : string -> string) :
  (forall (before after : list Level) (package_path : string)
          (visible loaded : Exc bool) (paths names : list string) (h : Host),
      gather_levels get_base_filename
        (before ++ mkLevel package_path
                     (Some (mkStreaming visible loaded (Some Raised))) :: after)
        paths names h
      = gather_levels get_base_filename
          (before ++ mkLevel package_path
                       (Some (mkStreaming visible loaded None)) :: after)
          paths names h)
  /\ (forall (levels : list Level) (paths names : list string) (h : Host),
        existsb flags_raise levels = false ->
        exists gathered,
          snd (gather_levels get_base_filename levels paths names h)
          = Ok gathered)
  /\ (forall (levels : list Level) (paths names : list string) (h : Host),
        existsb flags_raise levels = true ->
        snd (gather_levels get_base_filename levels paths names h) = Raised)
  /\ (forall (h : Host) (sq : LevelSequence) (world : list Level),
        current_level_sequence h = Some sq ->
        ensured_tracks sq <> None ->
        editor_world h = Some world ->
        existsb flags_raise world = true ->
        snd (sync_visible_levels_to_sequencer get_base_filename h) = Raised
        /\ created get_base_filename h = []
        /\ refreshes (after_sync get_base_filename h) = refreshes h).
Proof.
  split; [|split; [|split]].
  - intros before after package_path visible loaded paths names h.
    rewrite !gather_levels_scan.
    destruct (scan_same_when_lookup_raises get_base_filename before after
                package_path visible loaded) as [-> ->].
    reflexivity.
  - intros levels paths names h Hflags. rewrite gather_levels_scan. simpl.
    destruct (scan get_base_filename levels) as [found|] eqn:Hscan; [eauto|].
    apply scan_raises in Hscan. congruence.
  - intros levels paths names h Hflags. rewrite gather_levels_scan. simpl.
    apply (scan_raises get_base_filename) in Hflags. now rewrite Hflags.
  - intros h sq world Hsq Htrack Hworld Hflags.
    apply (scan_raises get_base_filename) in Hflags.
    rewrite created_built. unfold run_steps, candidates, after_sync.
    rewrite sync_outline_correct. unfold sync_outline.
    rewrite Hsq, Hworld, Hflags.
    destruct (ensured_tracks sq) as [[track others]|]; [|congruence].
    repeat split; try reflexivity.
    unfold with_tracks. now rewrite Hsq.
Qed.

Lemma capture_failure_policy_witness :
  snd (sync_visible_levels_to_sequencer base_filename faulty_host) = Raised
  /\ created base_filename faulty_host = []
  /\ refreshes (after_sync base_filename faulty_host) = refreshes faulty_host.
Proof.
  apply (proj2 (proj2 (proj2 (capture_failure_policy base_filename)))
               faulty_host
               (sample_sequence [mkTrack "Level Visibility" []] None)
               [mkLevel "/Game/L/X" (Some (mkStreaming Raised (Ok true) None));
                mkLevel "/Game/L/B" (streaming_level_in true true)]).
  - reflexivity.
  - discriminate.
  - reflexivity.
  - reflexivity.
Defined.

(** C2. Two visible, loaded sublevels "/Game/A/Sub" and "/Game/B/Sub"
    resolve to the same name "Sub"; step 6 computes [existing] once and
    step 7 never adds to it, so one run creates two sections named "Sub",
    on rows 0 and 1. *)
Theorem same_name_added_twice :
  candidates base_filename twin_host = ["Sub"; "Sub"]
  /\ existing_before twin_host = []
  /\ created base_filename twin_host
     = [mkSection 0 (0, 100)%Z ["Sub"] VISIBLE;
        mkSection 1 (0, 100)%Z ["Sub"] VISIBLE].
Proof. repeat split; reflexivity. Qed.

(** ** Running twice *)

Section TwiceProofs.

Variable get_base_filename : string -> string.

Lemma candidates_after (h : Host) :
  candidates get_base_filename (after_sync get_base_filename h)
  = candidates get_base_filename h.
Proof.
  unfold after_sync. rewrite sync_outline_correct.
  unfold sync_outline, candidates, ensured_tracks.
  split_host h;
    cbn [current_level_sequence visibility_tracks add_track_yields path_name
         editor_world playback_range add_section_outcomes output_log refreshes
         sections track_name];
    try (destruct (scan get_base_filename world) as [[|c found]|] eqn:Hscan);
    cbn -[steps built attempts creations existing_names sorted scan];
    rewrite ?Hscan; reflexivity.
Qed.

Lemma existing_after (h : Host) (x : string) :
  In x (existing_before h)
  \/ (exists sec, In sec (created get_base_filename h) /\ In x (level_names sec)) ->
  In x (existing_before (after_sync get_base_filename h)).
Proof.
  unfold existing_before. rewrite !existing_names_in.
  destruct (run_effect get_base_filename h) as (-> & _).
  rewrite <- created_built.
  intros [(sec & Hs & Hx)|(sec & Hs & Hx)]; exists sec;
    (split; [apply in_or_app; auto|exact Hx]).
Qed.

(** A second run creates sections only for names whose creation failed in
    the first. *)
Lemma second_run_retries (h : Host) (sec : MovieSceneSection) :
  In sec (created get_base_filename (after_sync get_base_filename h)) ->
  exists name,
    level_names sec = [name] /\ In (Fail name) (run_steps get_base_filename h).
Proof.
  intros Hin. rewrite created_built in Hin. unfold run_steps in Hin.
  pose proof (steps_built
                (frames_of (after_sync get_base_filename h))
                (existing_before (after_sync get_base_filename h))
                (candidates get_base_filename (after_sync get_base_filename h))
                (add_section_outcomes (after_sync get_base_filename h)) 0%Z)
    as Hall.
  rewrite Forall_forall in Hall.
  destruct (Hall sec Hin) as (_ & _ & name & Hn & Hc & Hnew).
  rewrite candidates_after in Hc.
  exists name. split; [exact Hn|].
  destruct (steps_cover (frames_of h) (existing_before h)
              (candidates get_base_filename h) (add_section_outcomes h) 0%Z
              name Hc) as [Hold|[Hfail|(sec' & Hs & Hx)]].
  - exfalso. assert (Hnow : py_in name
                              (existing_before (after_sync get_base_filename h))
                            = true)
      by (apply py_in_true, existing_after; now left).
    congruence.
  - exact Hfail.
  - exfalso. assert (Hnow : py_in name
                              (existing_before (after_sync get_base_filename h))
                            = true).
    { apply py_in_true, existing_after. right. exists sec'.
      rewrite created_built. split; [exact Hs|]. rewrite Hx. now left. }
    congruence.
Qed.

End TwiceProofs.

(** C1, as stated, fails: when the one [add_section] call of the first run
    returns nothing, the first run adds no section, and the second run,
    on the host the first one left, adds the section for "B". *)
Lemma second_sync_adds_after_failure :
  created base_filename flaky_host = []
  /\ created base_filename (after_sync base_filename flaky_host)
     = [mkSection 0 (0, 100)%Z ["B"] VISIBLE]
  /\ last (logged base_filename (after_sync base_filename flaky_host))
          (Error, NoActiveSequence)
     = (Warning, SyncComplete 1).
Proof. repeat split; reflexivity. Qed.

(** A failed creation is for a gathered name that was not on the track. *)
Lemma steps_fail_in (existing : set string) (names : list string) :
  forall (outcomes : list bool) (added : Z) (name : string),
    In (Fail name) (steps existing names outcomes added) ->
    In name names /\ py_in name existing = false.
Proof.
  induction names as [|n rest IH]; intros outcomes added name; simpl.
  - contradiction.
  - destruct (py_in n existing) eqn:Hn;
      [|destruct outcomes as [|[|] later]]; simpl;
      intros [Hhere|Hlater];
      try discriminate Hhere;
      try (inversion Hhere; subst; auto; fail);
      destruct (IH _ _ _ Hlater); auto.
Qed.

(** A "failed to add" line in the log of a run comes from a failed step. *)
Lemma failed_line_step (get_base_filename : string -> string) (h : Host)
    (name : string) :
  In (Warning, AddFailed name) (logged get_base_filename h) ->
  In (Fail name) (run_steps get_base_filename h).
Proof.
  destruct (run_log_shape get_base_filename h)
    as (prefix & suffix & -> & Hpre & Hsuf & _).
  rewrite Forall_forall in Hpre, Hsuf.
  intros Hin. apply in_app_or in Hin as [Hin|Hin];
    [apply Hpre in Hin; discriminate Hin|].
  apply in_app_or in Hin as [Hin|Hin];
    [|apply Hsuf in Hin; discriminate Hin].
  apply in_map_iff in Hin as ([n|n|n row] & Hline & Hstep);
    try discriminate Hline.
  inversion Hline; subst. exact Hstep.
Qed.

(** C1, amended. Idempotence: when no section creation failed in a run,
    a second run on the host it left creates no section, leaves the
    working track as it is, and, if it gets to step 7 at all, reports zero
    additions.  Whatever the first run did, a second run creates sections
    only for names whose creation the first run logged as failed; and a
    name whose creation failed, and for which the first run created no
    section either, is not on the track and is among the names the second
    run tries to add. *)
Theorem sync_twice_adds_nothing (get_base_filename : string -> string)
    (h : Host) :
  (count_lines is_add_failed (logged get_base_filename h) = 0 ->
   let h1 := after_sync get_base_filename h in
   created get_base_filename h1 = []
   /\ working_sections (after_sync get_base_filename h1) = working_sections h1
   /\ count_lines is_added_section (logged get_base_filename h1) = 0
   /\ (candidates get_base_filename h <> [] ->
       last (logged get_base_filename h1) (Error, NoActiveSequence)
       = (Warning, SyncComplete 0)))
  /\ (forall sec,
        In sec (created get_base_filename (after_sync get_base_filename h)) ->
        exists name,
          level_names sec = [name]
          /\ In (Warning, AddFailed name) (logged get_base_filename h))
  /\ (forall name,
        In (Warning, AddFailed name) (logged get_base_filename h) ->
        (forall sec,
            In sec (created get_base_filename h) ->
            ~ In name (level_names sec)) ->
        ~ In name (existing_before (after_sync get_base_filename h))
        /\ In name (to_add get_base_filename (after_sync get_base_filename h))).
Proof.
  split; [|split].
  - intros Hclean h1. rewrite failed_lines in Hclean.
    assert (Hnone : created get_base_filename h1 = []).
    { destruct (created get_base_filename h1) as [|sec more] eqn:Hc;
        [reflexivity|].
      destruct (second_run_retries get_base_filename h sec)
        as (name & _ & Hfail).
      { fold h1. rewrite Hc. now left. }
      assert (Hin : In (Fail name)
                       (filter is_fail (run_steps get_base_filename h)))
        by (apply filter_In; split; [exact Hfail|reflexivity]).
      destruct (filter is_fail (run_steps get_base_filename h));
        [contradiction|discriminate]. }
    assert (Hzero : creations (run_steps get_base_filename h1) = 0)
      by (rewrite <- built_length with (frames := frames_of h1),
            <- created_built, Hnone; reflexivity).
    repeat split.
    + exact Hnone.
    + destruct (run_effect get_base_filename h1) as (-> & _).
      rewrite <- created_built, Hnone. apply app_nil_r.
    + now rewrite added_lines.
    + intros Hcand.
      destruct (run_log_shape get_base_filename h1)
        as (prefix & suffix & Hlog & _ & _ & Hdone).
      destruct Hdone as (-> & _).
      { unfold h1. now rewrite candidates_after. }
      rewrite Hlog, Hzero, !app_assoc. apply last_last.
  - intros sec Hin.
    destruct (second_run_retries get_base_filename h sec Hin)
      as (name & Hname & Hfail).
    exists name. split; [exact Hname|].
    destruct (run_log_shape get_base_filename h)
      as (prefix & suffix & -> & _).
    apply in_or_app. right. apply in_or_app. left.
    apply in_map_iff. exists (Fail name). auto.
  - intros name Hline Hnot.
    apply failed_line_step in Hline. unfold run_steps in Hline.
    apply steps_fail_in in Hline as [Hcand Hnew].
    assert (Hoff : ~ In name (existing_before (after_sync get_base_filename h))).
    { unfold existing_before at 1. rewrite existing_names_in.
      destruct (run_effect get_base_filename h) as (-> & _).
      rewrite <- created_built.
      intros (sec & Hsec & Hname).
      apply in_app_or in Hsec as [Hold|Hmade].
      - assert (Hin : py_in name (existing_before h) = true).
        { apply py_in_true. unfold existing_before.
          apply existing_names_in. eauto. }
        congruence.
      - exact (Hnot sec Hmade Hname). }
    split; [exact Hoff|].
    unfold to_add. apply filter_In. rewrite candidates_after.
    split; [exact Hcand|].
    destruct (py_in name (existing_before (after_sync get_base_filename h)))
      eqn:Hin; [|reflexivity].
    apply py_in_true in Hin. contradiction.
Qed.

Lemma sync_twice_adds_nothing_witness :
  (created base_filename (after_sync base_filename sample_host) = []
   /\ working_sections
        (after_sync base_filename (after_sync base_filename sample_host))
      = working_sections (after_sync base_filename sample_host)
   /\ count_lines is_added_section
        (logged base_filename (after_sync base_filename sample_host)) = 0
   /\ (candidates base_filename sample_host <> [] ->
       last (logged base_filename (after_sync base_filename sample_host))
            (Error, NoActiveSequence)
       = (Warning, SyncComplete 0)))
  /\ (exists name,
        level_names (mkSection 0 (0, 100)%Z ["B"] VISIBLE) = [name]
        /\ In (Warning, AddFailed name) (logged base_filename flaky_host))
  /\ (~ In "B" (existing_before (after_sync base_filename flaky_host))
      /\ In "B" (to_add base_filename (after_sync base_filename flaky_host))).
Proof.
  split; [|split].
  - apply (proj1 (sync_twice_adds_nothing base_filename sample_host)).
    reflexivity.
  - apply (proj1 (proj2 (sync_twice_adds_nothing base_filename flaky_host))).
    vm_compute. left. reflexivity.
  - apply (proj2 (proj2 (sync_twice_adds_nothing base_filename flaky_host)) "B").
    + vm_compute. do 7 right. left. reflexivity.
    + intros sec Hin. vm_compute in Hin. contradiction.
Defined.

(** * Further properties *)

(** ** Short names *)

Lemma split_whole (sep : ascii) (s : string) :
  PyStr.contains sep s = false -> PyStr.split sep s = [s].
Proof.
  induction s as [|c rest IH]; simpl; [reflexivity|].
  destruct (Ascii.eqb c sep); simpl; [discriminate|].
  intros Hrest. now rewrite (IH Hrest).
Qed.

Lemma split_app_sep (sep : ascii) (a b : string) :
  PyStr.split sep (a ++ String sep b)%string
  = PyStr.split sep a ++ PyStr.split sep b.
Proof.
  induction a as [|c a IH]; simpl.
  - now rewrite Ascii.eqb_refl.
  - rewrite IH. destruct (Ascii.eqb c sep); [reflexivity|].
    pose proof (split_not_nil sep a) as Hne.
    destruct (PyStr.split sep a) as [|hd tl]; [contradiction|reflexivity].
Qed.

(** Appending text without separator lengthens the last piece only. *)
Lemma split_app_clean (sep : ascii) (t : string) :
  PyStr.contains sep t = false ->
  forall p : string,
    exists init x,
      PyStr.split sep p = init ++ [x]
      /\ PyStr.split sep (p ++ t)%string = init ++ [(x ++ t)%string].
Proof.
  intros Hclean. induction p as [|c p (init & x & Hp & Hpt)]; simpl.
  - exists [], EmptyString. split; [reflexivity|]. now apply split_whole.
  - rewrite Hp, Hpt. destruct (Ascii.eqb c sep).
    + exists (EmptyString :: init), x. auto.
    + destruct init as [|i init]; simpl.
      * exists [], (String c x). auto.
      * exists (String c i :: init), x. auto.
Qed.

Lemma last_app_nonempty {A : Type} (l1 l2 : list A) (d : A) :
  l2 <> [] -> last (l1 ++ l2) d = last l2 d.
Proof.
  intros Hne. induction l1 as [|x l1 IH]; simpl; [reflexivity|].
  destruct (l1 ++ l2) eqn:Happ; [|exact IH].
  apply app_eq_nil in Happ as [_ ->]. contradiction.
Qed.

Lemma last_segment_after_sep (sep : ascii) (a b : string) :
  last_segment sep (a ++ String sep b)%string = last_segment sep b.
Proof.
  unfold last_segment, PyStr.item_m1. rewrite split_app_sep.
  apply last_app_nonempty, split_not_nil.
Qed.

Lemma last_segment_whole (sep : ascii) (s : string) :
  PyStr.contains sep s = false -> last_segment sep s = s.
Proof.
  intros Hclean. unfold last_segment. now rewrite split_whole.
Qed.

Lemma last_segment_app_clean (sep : ascii) (p t : string) :
  PyStr.contains sep t = false ->
  last_segment sep (p ++ t)%string = (last_segment sep p ++ t)%string.
Proof.
  intros Hclean. unfold last_segment, PyStr.item_m1.
  destruct (split_app_clean sep t Hclean p) as (init & x & -> & ->).
  now rewrite !last_last.
Qed.

Lemma contains_app (c : ascii) (p q : string) :
  PyStr.contains c (p ++ q)%string = PyStr.contains c p || PyStr.contains c q.
Proof.
  induction p as [|d p IH]; simpl; [reflexivity|].
  now rewrite IH, orb_assoc.
Qed.

Lemma last_segment_keeps_clean (c sep : ascii) (s : string) :
  PyStr.contains c s = false -> PyStr.contains c (last_segment sep s) = false.
Proof.
  intros Hclean.
  destruct (last_segment_cut sep s) as (_ & [->|(p & Hcut)]); [exact Hclean|].
  rewrite Hcut, contains_app in Hclean.
  apply orb_false_iff in Hclean as [_ Hclean]. simpl in Hclean.
  now apply orb_false_iff in Hclean.
Qed.

Lemma short_name_primary (identity : string) :
  _short_name_from_package identity = resolve_primary identity.
Proof.
  unfold _short_name_from_package, resolve_primary.
  destruct identity as [|c rest]; [reflexivity|].
  cbn [PyStr.truthy negb]. now rewrite rsplit1_last.
Qed.

Lemma short_name_clean (identity : string) :
  PyStr.contains "/" (_short_name_from_package identity) = false
  /\ PyStr.contains "." (_short_name_from_package identity) = false.
Proof.
  rewrite short_name_primary. unfold resolve_primary. split.
  - apply last_segment_keeps_clean, last_segment_cut.
  - apply last_segment_cut.
Qed.

(** X1. The short name is what follows the last '/' or '.' of the path,
    whichever comes last: a name free of both is recovered from any path
    that ends in a '/' or a '.' followed by that name. *)
Theorem short_name_after_last_separator (prefix : string) (c : ascii)
    (name : string) :
  c = "/"%char \/ c = "."%char ->
  PyStr.contains "/" name = false ->
  PyStr.contains "." name = false ->
  _short_name_from_package (prefix ++ String c name)%string = name.
Proof.
  intros [-> | ->] Hslash Hdot; rewrite short_name_primary; unfold resolve_primary.
  - rewrite last_segment_after_sep, (last_segment_whole "/" name Hslash).
    now apply last_segment_whole.
  - rewrite (last_segment_app_clean "/" prefix (String "." name)).
    + rewrite last_segment_after_sep. now apply last_segment_whole.
    + simpl. exact Hslash.
Qed.

Lemma short_name_after_last_separator_witness :
  _short_name_from_package ("/Game/Maps/Sub" ++ String "/" "MySub_A")%string
  = "MySub_A".
Proof.
  apply (short_name_after_last_separator "/Game/Maps/Sub" "/" "MySub_A").
  - left. reflexivity.
  - reflexivity.
  - reflexivity.
Defined.

(** X2. A string with neither '/' nor '.' is its own short name, so
    taking the short name twice is the same as taking it once. *)
Theorem short_name_idempotent :
  (forall name : string,
      PyStr.contains "/" name = false ->
      PyStr.contains "." name = false ->
      _short_name_from_package name = name)
  /\ (forall identity : string,
        _short_name_from_package (_short_name_from_package identity)
        = _short_name_from_package identity).
Proof.
  assert (Hfix : forall name : string,
             PyStr.contains "/" name = false ->
             PyStr.contains "." name = false ->
             _short_name_from_package name = name).
  { intros name Hslash Hdot. rewrite short_name_primary. unfold resolve_primary.
    rewrite (last_segment_whole "/" name Hslash).
    now apply last_segment_whole. }
  split; [exact Hfix|].
  intros identity. apply Hfix; apply short_name_clean.
Qed.

Lemma short_name_idempotent_witness :
  _short_name_from_package "MySub_A" = "MySub_A".
Proof.
  apply (proj1 short_name_idempotent "MySub_A"); reflexivity.
Defined.

(** ** The helper that adds one section *)

Lemma add_level_visibility_section_at
    pn before tname secs after frames aty world outcomes lg r
    (names : list string) (visible : bool) (start_frame end_frame row : Z) :
  add_level_visibility_section (length before) names visible
    start_frame end_frame row
    (host_at pn before tname secs after frames aty world outcomes lg r)
  = match outcomes with
    | false :: later =>
        (host_at pn before tname secs after frames aty world later lg r, Raised)
    | _ =>
        (host_at pn before tname
                 (secs ++ [mkSection row (start_frame, end_frame) names
                                     (if visible then VISIBLE else HIDDEN)])
                 after frames aty world (tl outcomes) lg r,
         Ok (length secs))
    end.
Proof.
  unfold add_level_visibility_section. unfold bind at 1.
  rewrite add_section_at.
  assert (Hset : forall oc,
             (set_row_index (length before) (length secs) row ;;
              set_visibility (length before) (length secs)
                             (if visible then VISIBLE else HIDDEN) ;;
              set_level_names (length before) (length secs)
                              (map unreal_Name names) ;;
              set_range (length before) (length secs) start_frame end_frame ;;
              ret (length secs))
               (host_at pn before tname (secs ++ [fresh_section]) after frames
                        aty world oc lg r)
             = (host_at pn before tname
                        (secs ++ [mkSection row (start_frame, end_frame) names
                                            (if visible then VISIBLE else HIDDEN)])
                        after frames aty world oc lg r,
                Ok (length secs))).
  { intros oc.
    unfold bind, ret, set_row_index, set_visibility, set_level_names, set_range,
      set_section.
    rewrite !with_sections_at, !update_nth_last. unfold unreal_Name.
    now rewrite map_id. }
  destruct outcomes as [|[|] later]; cbn [tl]; try apply Hset. reflexivity.
Qed.

Ltac expose_track h sq tr Hsq Hts :=
  destruct h as [cs world outcomes lg r];
  destruct sq as [pn ts frames aty];
  destruct tr as [tname secs];
  cbn [current_level_sequence visibility_tracks] in Hsq, Hts;
  subst cs ts;
  match goal with
  | |- context [mkHost (Some (mkSequence pn (?b ++ mkTrack tname secs :: ?a)
                                         frames aty)) world outcomes lg r] =>
      change (mkHost (Some (mkSequence pn (b ++ mkTrack tname secs :: a)
                                       frames aty)) world outcomes lg r)
        with (host_at pn b tname secs a frames aty world outcomes lg r)
  end.

(** X3. When [add_section] hands back a section, the helper leaves the
    track with exactly one more section, at the end, carrying the row, the
    range and the names it was given and VISIBLE or HIDDEN as asked; it
    returns that section; the sections that were there, the other tracks,
    the world and the log are as before. *)
Theorem helper_appends_one_section (h : Host) (sq : LevelSequence)
    (before after : list Track) (tr : Track)
    (names : list string) (visible : bool) (start_frame end_frame row : Z) :
  current_level_sequence h = Some sq ->
  visibility_tracks sq = before ++ tr :: after ->
  hd true (add_section_outcomes h) = true ->
  let run := add_level_visibility_section (length before) names visible
               start_frame end_frame row h in
  snd run = Ok (length (sections tr))
  /\ tracks_of (fst run)
     = before
         ++ mkTrack (track_name tr)
                    (sections tr
                       ++ [mkSection row (start_frame, end_frame) names
                                     (if visible then VISIBLE else HIDDEN)])
         :: after
  /\ editor_world (fst run) = editor_world h
  /\ output_log (fst run) = output_log h
  /\ refreshes (fst run) = refreshes h
  /\ add_section_outcomes (fst run) = tl (add_section_outcomes h).
Proof.
  intros Hsq Hts Hok. expose_track h sq tr Hsq Hts.
  cbv zeta. rewrite add_level_visibility_section_at.
  cbn [add_section_outcomes host_at] in Hok.
  destruct outcomes as [|[|] later]; [| |discriminate Hok];
    repeat split; reflexivity.
Qed.

Lemma helper_appends_one_section_witness :
  let run := add_level_visibility_section 0 ["D"; "E"] false 10 20 3
               stocked_host in
  snd run = Ok 1
  /\ tracks_of (fst run)
     = [mkTrack "Level Visibility"
                [mkSection 5 (0, 50)%Z ["B"] HIDDEN;
                 mkSection 3 (10, 20)%Z ["D"; "E"] HIDDEN];
        mkTrack "Other" [mkSection 0 (0, 10)%Z ["Z"] VISIBLE]]
  /\ editor_world (fst run) = editor_world stocked_host
  /\ output_log (fst run) = output_log stocked_host
  /\ refreshes (fst run) = refreshes stocked_host
  /\ add_section_outcomes (fst run) = tl (add_section_outcomes stocked_host).
Proof.
  apply (helper_appends_one_section stocked_host
           (sample_sequence
              [mkTrack "Level Visibility" [mkSection 5 (0, 50)%Z ["B"] HIDDEN];
               mkTrack "Other" [mkSection 0 (0, 10)%Z ["Z"] VISIBLE]] None)
           [] [mkTrack "Other" [mkSection 0 (0, 10)%Z ["Z"] VISIBLE]]
           (mkTrack "Level Visibility" [mkSection 5 (0, 50)%Z ["B"] HIDDEN])
           ["D"; "E"] false 10%Z 20%Z 3%Z);
    reflexivity.
Defined.

(** X4. When [add_section] returns nothing, the helper does not recover:
    its first setter raises, and the tracks, the world and the log are
    left as they were. *)
Theorem helper_raises_without_section (h : Host) (sq : LevelSequence)
    (before after : list Track) (tr : Track)
    (names : list string) (visible : bool) (start_frame end_frame row : Z) :
  current_level_sequence h = Some sq ->
  visibility_tracks sq = before ++ tr :: after ->
  hd true (add_section_outcomes h) = false ->
  let run := add_level_visibility_section (length before) names visible
               start_frame end_frame row h in
  snd run = Raised
  /\ tracks_of (fst run) = tracks_of h
  /\ editor_world (fst run) = editor_world h
  /\ output_log (fst run) = output_log h
  /\ refreshes (fst run) = refreshes h.
Proof.
  intros Hsq Hts Hfail. expose_track h sq tr Hsq Hts.
  cbv zeta. rewrite add_level_visibility_section_at.
  cbn [add_section_outcomes host_at] in Hfail.
  destruct outcomes as [|[|] later]; try discriminate Hfail.
  repeat split; reflexivity.
Qed.

Lemma helper_raises_without_section_witness :
  let run := add_level_visibility_section 0 ["D"] true 10 20 0 flaky_host in
  snd run = Raised
  /\ tracks_of (fst run) = tracks_of flaky_host
  /\ editor_world (fst run) = editor_world flaky_host
  /\ output_log (fst run) = output_log flaky_host
  /\ refreshes (fst run) = refreshes flaky_host.
Proof.
  apply (helper_raises_without_section flaky_host
           (sample_sequence [mkTrack "Level Visibility" []] None)
           [] [] (mkTrack "Level Visibility" [])
           ["D"] true 10%Z 20%Z 0%Z);
    reflexivity.
Defined.

(** X5. Step 7 of the script creates a section the way the helper does:
    for a name that is not on the track yet and an [add_section] that
    succeeds, one pass of the loop is the helper called with that single
    name, visible, over the playback frames, on row [added], followed by
    the log line and the rest of the loop with [added + 1]. *)
Theorem loop_pass_is_helper_call (h : Host) (sq : LevelSequence)
    (before after : list Track) (tr : Track)
    (existing : set string) (level_path : string) (rest : list string)
    (start_frame end_frame added : Z) :
  current_level_sequence h = Some sq ->
  visibility_tracks sq = before ++ tr :: after ->
  py_in level_path existing = false ->
  hd true (add_section_outcomes h) = true ->
  add_sections (length before) start_frame end_frame existing
               (level_path :: rest) added h
  = (add_level_visibility_section (length before) [level_path] true
       start_frame end_frame added ;;
     unreal_log Display (AddedSection level_path) ;;
     add_sections (length before) start_frame end_frame existing rest
                  (added + 1)%Z) h.
Proof.
  intros Hsq Hts Hnew Hok. expose_track h sq tr Hsq Hts.
  cbn [add_section_outcomes host_at] in Hok.
  cbn [add_sections]. rewrite Hnew. unfold bind at 1. rewrite add_section_at.
  destruct outcomes as [|[|] later]; [| |discriminate Hok]; cbn [tl];
    rewrite create_section_at; unfold bind;
    rewrite add_level_visibility_section_at; reflexivity.
Qed.

Lemma loop_pass_is_helper_call_witness :
  add_sections 0 0 100 ["B"] ["D"; "B"] 0 stocked_host
  = (add_level_visibility_section 0 ["D"] true 0 100 0 ;;
     unreal_log Display (AddedSection "D") ;;
     add_sections 0 0 100 ["B"] ["B"] (0 + 1)%Z) stocked_host.
Proof.
  apply (loop_pass_is_helper_call stocked_host
           (sample_sequence
              [mkTrack "Level Visibility" [mkSection 5 (0, 50)%Z ["B"] HIDDEN];
               mkTrack "Other" [mkSection 0 (0, 10)%Z ["Z"] VISIBLE]] None)
           [] [mkTrack "Other" [mkSection 0 (0, 10)%Z ["Z"] VISIBLE]]
           (mkTrack "Level Visibility" [mkSection 5 (0, 50)%Z ["B"] HIDDEN])
           ["B"] "D" ["B"] 0%Z 100%Z 0%Z);
    reflexivity.
Defined.

(** ** The run as a whole *)

Section WholeRun.

Variable get_base_filename : string -> string.

Lemma log_extended (h : Host) :
  output_log (after_sync get_base_filename h)
  = output_log h ++ logged get_base_filename h.
Proof.
  assert (H : exists lines,
             output_log (after_sync get_base_filename h) = output_log h ++ lines).
  { unfold after_sync. rewrite sync_outline_correct.
    unfold sync_outline, ensured_tracks.
    split_host h;
      cbn [current_level_sequence visibility_tracks add_track_yields path_name
           editor_world playback_range add_section_outcomes output_log refreshes
           sections track_name];
      try (destruct (scan get_base_filename world) as [[|c found]|]);
      cbn -[steps built attempts creations existing_names sorted];
      eexists; reflexivity. }
  destruct H as (lines & Hlines). unfold logged.
  now rewrite Hlines, skipn_length_app.
Qed.

Lemma refreshes_after (h : Host) :
  refreshes (after_sync get_base_filename h)
  = match candidates get_base_filename h with
    | [] => refreshes h
    | _ :: _ => S (refreshes h)
    end.
Proof.
  unfold after_sync. rewrite sync_outline_correct.
  unfold sync_outline, candidates, ensured_tracks.
  split_host h;
    cbn [current_level_sequence visibility_tracks add_track_yields path_name
         editor_world playback_range add_section_outcomes output_log refreshes
         sections track_name];
    try (destruct (scan get_base_filename world) as [[|c found]|]);
    reflexivity.
Qed.

End WholeRun.

(** X6. A run only adds: the other Level Visibility tracks, the editor
    world and the playback range are as before, the output log is the
    old log followed by the lines of the run, and every name that was on
    the working track is still on it. *)
Theorem run_only_adds (get_base_filename : string -> string) (h : Host) :
  let h' := after_sync get_base_filename h in
  tl (tracks_of h') = tl (tracks_of h)
  /\ editor_world h' = editor_world h
  /\ frames_of h' = frames_of h
  /\ output_log h' = output_log h ++ logged get_base_filename h
  /\ (forall name, In name (existing_before h) -> In name (existing_before h')).
Proof.
  destruct (run_effect get_base_filename h) as (_ & Htl & Hworld & Hframes & _).
  repeat split; try assumption.
  - apply log_extended.
  - intros name Hin. apply existing_after. now left.
Qed.

Lemma run_only_adds_witness :
  In "B" (existing_before (after_sync base_filename stocked_host)).
Proof.
  apply (proj2 (proj2 (proj2 (proj2 (run_only_adds base_filename stocked_host))))).
  vm_compute. left. reflexivity.
Defined.

(** X7. No section is created for a name that is already on the working
    track: the name of a created section occurs in none of the sections
    the track held before the run. *)
Theorem created_names_are_new (get_base_filename : string -> string)
    (h : Host) (sec old : MovieSceneSection) (name : string) :
  In sec (created get_base_filename h) ->
  In name (level_names sec) ->
  In old (working_sections h) ->
  ~ In name (level_names old).
Proof.
  intros Hsec Hname Hold Hclash.
  rewrite created_built in Hsec. unfold run_steps in Hsec.
  pose proof (steps_built (frames_of h) (existing_before h)
                (candidates get_base_filename h) (add_section_outcomes h) 0%Z)
    as Hall.
  rewrite Forall_forall in Hall.
  destruct (Hall sec Hsec) as (_ & _ & n & Hn & _ & Hnew).
  rewrite Hn in Hname. destruct Hname as [->|[]].
  assert (Hin : py_in name (existing_before h) = true).
  { apply py_in_true. unfold existing_before. apply existing_names_in. eauto. }
  congruence.
Qed.

Lemma created_names_are_new_witness :
  ~ In "D" (level_names (mkSection 5 (0, 50)%Z ["B"] HIDDEN)).
Proof.
  apply (created_names_are_new base_filename stocked_host
           (mkSection 0 (0, 100)%Z ["D"] VISIBLE)
           (mkSection 5 (0, 50)%Z ["B"] HIDDEN) "D").
  - vm_compute. left. reflexivity.
  - left. reflexivity.
  - left. reflexivity.
Defined.

(** X8. When no section creation fails, the working track covers every
    gathered name after the run: each candidate is named by a section of
    the track, an old one or one the run created. *)
Theorem candidates_covered (get_base_filename : string -> string)
    (h : Host) (name : string) :
  count_lines is_add_failed (logged get_base_filename h) = 0 ->
  In name (candidates get_base_filename h) ->
  exists sec,
    In sec (working_sections (after_sync get_base_filename h))
    /\ In name (level_names sec).
Proof.
  intros Hclean Hcand. rewrite failed_lines in Hclean.
  destruct (run_effect get_base_filename h) as (-> & _).
  destruct (steps_cover (frames_of h) (existing_before h)
              (candidates get_base_filename h) (add_section_outcomes h) 0%Z
              name Hcand) as [Hold|[Hfail|(sec & Hs & Hx)]].
  - apply existing_names_in in Hold as (sec & Hs & Hx).
    exists sec. split; [apply in_or_app; now left|exact Hx].
  - exfalso.
    assert (Hin : In (Fail name) (filter is_fail (run_steps get_base_filename h)))
      by (apply filter_In; split; [exact Hfail|reflexivity]).
    destruct (filter is_fail (run_steps get_base_filename h));
      [contradiction|discriminate].
  - exists sec. split; [apply in_or_app; now right|].
    rewrite Hx. now left.
Qed.

Lemma candidates_covered_witness :
  exists sec,
    In sec (working_sections (after_sync base_filename stocked_host))
    /\ In "D" (level_names sec).
Proof.
  apply (candidates_covered base_filename stocked_host "D").
  - reflexivity.
  - vm_compute. right. left. reflexivity.
Defined.

Lemma steps_without_failure (frames : Z * Z) (existing : set string)
    (names : list string) :
  forall (outcomes : list bool) (added : Z),
    length (filter is_fail (steps existing names outcomes added)) = 0 ->
    map level_names (built frames (steps existing names outcomes added))
    = map (fun name => [name])
          (filter (fun name => negb (py_in name existing)) names).
Proof.
  unfold built.
  induction names as [|n rest IH]; intros outcomes added; simpl.
  - reflexivity.
  - destruct (py_in n existing); [|destruct outcomes as [|[|] later]]; simpl;
      intros Hnone; try discriminate Hnone; try f_equal; now apply IH.
Qed.

(** X9. When no section creation fails, the sections a run creates are,
    in gathering order, one for each gathered name that is not on the
    track, repeated names included. *)
Theorem created_follow_candidates (get_base_filename : string -> string)
    (h : Host) :
  count_lines is_add_failed (logged get_base_filename h) = 0 ->
  map level_names (created get_base_filename h)
  = map (fun name => [name]) (to_add get_base_filename h).
Proof.
  intros Hclean. rewrite failed_lines in Hclean.
  rewrite created_built. now apply steps_without_failure.
Qed.

Lemma created_follow_candidates_witness :
  map level_names (created base_filename stocked_host)
  = map (fun name => [name]) (to_add base_filename stocked_host).
Proof.
  apply (created_follow_candidates base_filename stocked_host). reflexivity.
Defined.

(** X10. Without an editor world the run stops after finding or creating
    its track: it returns normally with the error line last in the log,
    creates no section, calls [add_section] not once and does not refresh
    the Sequencer. *)
Theorem no_world_aborts (get_base_filename : string -> string)
    (h : Host) (sq : LevelSequence) :
  current_level_sequence h = Some sq ->
  ensured_tracks sq <> None ->
  editor_world h = None ->
  snd (sync_visible_levels_to_sequencer get_base_filename h) = Ok tt
  /\ created get_base_filename h = []
  /\ working_sections (after_sync get_base_filename h) = working_sections h
  /\ add_section_outcomes (after_sync get_base_filename h)
     = add_section_outcomes h
  /\ refreshes (after_sync get_base_filename h) = refreshes h
  /\ last (logged get_base_filename h) (Display, NothingToAdd)
     = (Error, NoEditorWorld).
Proof.
  intros Hsq Htrack Hworld.
  assert (Hnone : candidates get_base_filename h = []).
  { unfold candidates. rewrite Hsq, Hworld. now destruct (ensured_tracks sq). }
  destruct (run_effect get_base_filename h) as (Hsecs & _ & _ & _ & Hcalls).
  rewrite refreshes_after, created_built, Hsecs, Hcalls.
  unfold run_steps. rewrite Hnone. cbn [steps built flat_map attempts filter
                                         length skipn].
  rewrite app_nil_r.
  assert (Hend : snd (sync_visible_levels_to_sequencer get_base_filename h) = Ok tt
                 /\ last (logged get_base_filename h) (Display, NothingToAdd)
                    = (Error, NoEditorWorld)).
  { unfold logged, after_sync. rewrite sync_outline_correct. unfold sync_outline.
    destruct h as [cs w outcomes lg r].
    cbn [current_level_sequence editor_world] in Hsq, Hworld. subst cs w.
    cbn [current_level_sequence editor_world].
    destruct (ensured_tracks sq) as [[track others]|]; [|congruence].
    cbn. rewrite skipn_length_app. split; reflexivity. }
  destruct Hend as [Hok Hlast]. repeat split; try reflexivity; assumption.
Qed.

Lemma no_world_aborts_witness :
  snd (sync_visible_levels_to_sequencer base_filename trackless_host) = Ok tt
  /\ created base_filename trackless_host = []
  /\ working_sections (after_sync base_filename trackless_host)
     = working_sections trackless_host
  /\ add_section_outcomes (after_sync base_filename trackless_host)
     = add_section_outcomes trackless_host
  /\ refreshes (after_sync base_filename trackless_host)
     = refreshes trackless_host
  /\ last (logged base_filename trackless_host) (Display, NothingToAdd)
     = (Error, NoEditorWorld).
Proof.
  apply (no_world_aborts base_filename trackless_host
           (sample_sequence [] (Some "Level Visibility"))).
  - reflexivity.
  - discriminate.
  - reflexivity.
Defined.

(** X11. The Sequencer is refreshed once by a run that gathered at least
    one name, even when every name was already on the track, and not at
    all by any other run; [add_section] is called once for each gathered
    name that is not on the track, and never otherwise. *)
Theorem refresh_and_calls (get_base_filename : string -> string) (h : Host) :
  refreshes (after_sync get_base_filename h)
  = match candidates get_base_filename h with
    | [] => refreshes h
    | _ :: _ => S (refreshes h)
    end
  /\ add_section_outcomes (after_sync get_base_filename h)
     = skipn (length (to_add get_base_filename h)) (add_section_outcomes h).
Proof.
  split; [apply refreshes_after|].
  destruct (run_effect get_base_filename h) as (_ & _ & _ & _ & ->).
  unfold run_steps. now rewrite steps_attempts.
Qed.

(** X12. What a second run adds is what the first one failed to add:
    every section created by a run on the host an earlier run left names a
    single level for which that earlier run logged a failed creation. *)
Theorem second_run_only_retries (get_base_filename : string -> string)
    (h : Host) (sec : MovieSceneSection) :
  In sec (created get_base_filename (after_sync get_base_filename h)) ->
  exists name,
    level_names sec = [name]
    /\ In (Warning, AddFailed name) (logged get_base_filename h).
Proof.
  intros Hin.
  destruct (second_run_retries get_base_filename h sec Hin)
    as (name & Hname & Hfail).
  exists name. split; [exact Hname|].
  destruct (run_log_shape get_base_filename h)
    as (prefix & suffix & -> & _).
  apply in_or_app. right. apply in_or_app. left.
  apply in_map_iff. exists (Fail name). auto.
Qed.

Lemma second_run_only_retries_witness :
  exists name,
    level_names (mkSection 0 (0, 100)%Z ["B"] VISIBLE) = [name]
    /\ In (Warning, AddFailed name) (logged base_filename flaky_host).
Proof.
  apply (second_run_only_retries base_filename flaky_host).
  vm_compute. left. reflexivity.
Defined.

(** ** Steps 4 and 6 on their own *)

(** X13. A visible, loaded streaming level is gathered under the short
    name of the package name its wrapper gives, when the wrapper has the
    accessor and it returns a non-empty string; when the accessor is
    missing, raises or returns the empty string, the level is gathered
    under the short name of its own package path. *)
Theorem alternate_name_preferred (get_base_filename : string -> string)
    (lvl : Level) (streaming : LevelStreaming) (rest : list Level)
    (paths names : list string) (h : Host) :
  streaming_level lvl = Some streaming ->
  is_level_visible streaming = Ok true ->
  is_level_loaded streaming = Ok true ->
  (forall pkg_name,
      get_world_asset_package_name streaming = Some (Ok pkg_name) ->
      pkg_name <> "" ->
      gather_levels get_base_filename (lvl :: rest) paths names h
      = gather_levels get_base_filename rest
          (paths ++ [package_name lvl])
          (names ++ [_level_short_name get_base_filename
                       (_short_name_from_package pkg_name)]) h)
  /\ (get_world_asset_package_name streaming = None
      \/ get_world_asset_package_name streaming = Some Raised
      \/ get_world_asset_package_name streaming = Some (Ok "") ->
      gather_levels get_base_filename (lvl :: rest) paths names h
      = gather_levels get_base_filename rest
          (paths ++ [package_name lvl])
          (names ++ [_level_short_name get_base_filename
                       (_short_name_from_package (package_name lvl))]) h).
Proof.
  intros Hs Hv Hl. split.
  - intros pkg_name Hget Hne. cbn [gather_levels]. rewrite Hs.
    unfold bind, call, pretty_name_of, try_except, ret. rewrite Hv, Hl, Hget.
    destruct pkg_name as [|c more]; [congruence|reflexivity].
  - intros Hget. cbn [gather_levels]. rewrite Hs.
    unfold bind, call, pretty_name_of, try_except, ret. rewrite Hv, Hl.
    destruct Hget as [-> | [-> | ->]]; reflexivity.
Qed.

Lemma alternate_name_preferred_witness :
  gather_levels base_filename
    [mkLevel "/Game/L/B"
             (Some (mkStreaming (Ok true) (Ok true) (Some (Ok "/Game/Real/B_Real"))))]
    [] [] idle_host
  = gather_levels base_filename []
      ([] ++ ["/Game/L/B"])
      ([] ++ [_level_short_name base_filename
                (_short_name_from_package "/Game/Real/B_Real")]) idle_host.
Proof.
  apply (proj1 (alternate_name_preferred base_filename
                  (mkLevel "/Game/L/B"
                     (Some (mkStreaming (Ok true) (Ok true)
                                        (Some (Ok "/Game/Real/B_Real")))))
                  (mkStreaming (Ok true) (Ok true) (Some (Ok "/Game/Real/B_Real")))
                  [] [] [] idle_host eq_refl eq_refl eq_refl)
               "/Game/Real/B_Real").
  - reflexivity.
  - discriminate.
Defined.

Lemma add_names_nodup (names : list string) :
  forall acc : set string,
    NoDup acc ->
    NoDup (fold_left (fun existing name_or_path =>
                        set_add string_dec name_or_path existing) names acc).
Proof.
  induction names as [|n names IH]; intros acc Hacc; simpl.
  - exact Hacc.
  - apply IH. now apply set_add_nodup.
Qed.

(** X14. Step 6 collects exactly the names written on the sections of the
    track, each of them once, and the membership test of step 7 answers
    whether some section of the track carries the name. *)
Theorem existing_names_exact (secs : list MovieSceneSection) :
  NoDup (existing_names secs)
  /\ (forall name,
        py_in name (existing_names secs) = true
        <-> exists sec, In sec secs /\ In name (level_names sec)).
Proof.
  split.
  - unfold existing_names.
    assert (H : forall acc : set string,
               NoDup acc ->
               NoDup (fold_left
                        (fun existing section =>
                           fold_left (fun existing name_or_path =>
                                        set_add string_dec name_or_path existing)
                                     (level_names section) existing)
                        secs acc)).
    { induction secs as [|s secs IH]; intros acc Hacc; simpl.
      - exact Hacc.
      - apply IH. now apply add_names_nodup. }
    apply H. constructor.
  - intros name. rewrite py_in_true. apply existing_names_in.
Qed.

(** X15. A world in which no streaming level is both visible and loaded
    (an empty world, persistent levels only, hidden or unloaded sublevels)
    makes the run a no-op: it returns normally with the "nothing to add"
    warning last in the log, creates no section, calls [add_section] not
    once and does not refresh the Sequencer. *)
Theorem nothing_to_add_is_noop (get_base_filename : string -> string)
    (h : Host) (sq : LevelSequence) (world : list Level) :
  current_level_sequence h = Some sq ->
  ensured_tracks sq <> None ->
  editor_world h = Some world ->
  existsb flags_raise world = false ->
  filter is_candidate world = [] ->
  snd (sync_visible_levels_to_sequencer get_base_filename h) = Ok tt
  /\ created get_base_filename h = []
  /\ working_sections (after_sync get_base_filename h) = working_sections h
  /\ add_section_outcomes (after_sync get_base_filename h)
     = add_section_outcomes h
  /\ refreshes (after_sync get_base_filename h) = refreshes h
  /\ last (logged get_base_filename h) (Display, NothingToAdd)
     = (Warning, NothingToAdd).
Proof.
  intros Hsq Htrack Hworld Hflags Hnone.
  assert (Hscan : scan get_base_filename world = Ok []).
  { destruct (scan get_base_filename world) as [found|] eqn:Hscan.
    - apply scan_filter in Hscan. rewrite Hnone in Hscan. now subst found.
    - apply scan_raises in Hscan. congruence. }
  assert (Hcand : candidates get_base_filename h = []).
  { unfold candidates. rewrite Hsq, Hworld, Hscan.
    now destruct (ensured_tracks sq). }
  destruct (run_effect get_base_filename h) as (Hsecs & _ & _ & _ & Hcalls).
  rewrite refreshes_after, created_built, Hsecs, Hcalls.
  unfold run_steps. rewrite Hcand. cbn [steps built flat_map attempts filter
                                         length skipn].
  rewrite app_nil_r.
  assert (Hend : snd (sync_visible_levels_to_sequencer get_base_filename h) = Ok tt
                 /\ last (logged get_base_filename h) (Display, NothingToAdd)
                    = (Warning, NothingToAdd)).
  { unfold logged, after_sync. rewrite sync_outline_correct. unfold sync_outline.
    destruct h as [cs w outcomes lg r].
    cbn [current_level_sequence editor_world] in Hsq, Hworld. subst cs w.
    cbn [current_level_sequence editor_world]. rewrite Hscan.
    destruct (ensured_tracks sq) as [[track others]|]; [|congruence].
    cbn -[scan_log]. rewrite skipn_length_app. split; [reflexivity|].
    change ((Display, Processing (path_name sq))
              :: (Display, UsingTrack (track_name track))
              :: (Display, FoundLevels (length world))
              :: scan_log world ++ [(Warning, NothingToAdd)])
      with (([(Display, Processing (path_name sq));
              (Display, UsingTrack (track_name track));
              (Display, FoundLevels (length world))] ++ scan_log world)
              ++ [(Warning, NothingToAdd)]).
    apply last_last. }
  destruct Hend as [Hok Hlast]. repeat split; try reflexivity; assumption.
Qed.

Lemma nothing_to_add_is_noop_witness :
  snd (sync_visible_levels_to_sequencer base_filename persistent_host) = Ok tt
  /\ created base_filename persistent_host = []
  /\ working_sections (after_sync base_filename persistent_host)
     = working_sections persistent_host
  /\ add_section_outcomes (after_sync base_filename persistent_host)
     = add_section_outcomes persistent_host
  /\ refreshes (after_sync base_filename persistent_host)
     = refreshes persistent_host
  /\ last (logged base_filename persistent_host) (Display, NothingToAdd)
     = (Warning, NothingToAdd).
Proof.
  apply (nothing_to_add_is_noop base_filename persistent_host
           (sample_sequence [] (Some "Level Visibility"))
           [mkLevel "/Game/L/A" None; mkLevel "/Game/L/P" None]).
  - reflexivity.
  - discriminate.
  - reflexivity.
  - reflexivity.
  - reflexivity.
Defined.
